(** * Topology inference of the ZHA topology visualizer

    Shallow embedding of [build_topology] (rootfs/app/main.py) and of
    [build_hierarchy], the primary-link cascade and the path walk of
    [generate_html], and of [generate_visualization] (rootfs/app/visualize.py).

    Python dicts are insertion-ordered; they are modelled as association
    lists whose keys keep the position of their first insertion while the
    value is overwritten, exactly as CPython does. *)

From Stdlib Require Import List Bool ZArith String Ascii Lia Permutation Sorting.
Import ListNotations.
Open Scope Z_scope.

(** ** JSON values and Python's [int()] *)

(** The raw JSON field values the exporter stores for [nwk], [lqi],
    [dest_nwk] and [next_hop]: absent/null, an integer or a string.
    (Floats, booleans and containers are not modelled.) *)
Inductive jvalue : Type :=
| JNull
| JInt (z : Z)
| JStr (s : string).

(** Characters Python's [int()] strips around its argument (ASCII range). *)
Definition py_space (c : ascii) : bool :=
  let n := nat_of_ascii c in
  ((9 <=? n)%nat && (n <=? 13)%nat) || ((28 <=? n)%nat && (n <=? 32)%nat).

Fixpoint drop_space (cs : list ascii) : list ascii :=
  match cs with
  | c :: r => if py_space c then drop_space r else cs
  | [] => []
  end.

Definition py_strip (cs : list ascii) : list ascii :=
  rev (drop_space (rev (drop_space cs))).

Definition digit_val (c : ascii) : option Z :=
  let n := Z.of_nat (nat_of_ascii c) in
  if (48 <=? n) && (n <=? 57) then Some (n - 48)
  else if (97 <=? n) && (n <=? 122) then Some (n - 87)
  else if (65 <=? n) && (n <=? 90) then Some (n - 55)
  else None.

(** Digits with single underscores between them, at least one digit. *)
Fixpoint py_digits (base : Z) (cs : list ascii) (acc : Z) (after_digit : bool)
  : option Z :=
  match cs with
  | [] => if after_digit then Some acc else None
  | c :: r =>
      if Ascii.eqb c "_"%char then
        if after_digit then py_digits base r acc false else None
      else match digit_val c with
           | Some v => if v <? base then py_digits base r (acc * base + v) true
                       else None
           | None => None
           end
  end.

(** [int(s, base)] for base 10 and 16 ([None] = [ValueError]). *)
Definition py_int (base : Z) (s : string) : option Z :=
  let cs := py_strip (list_ascii_of_string s) in
  let '(sign, cs1) :=
    match cs with
    | "-"%char :: r => (-1, r)
    | "+"%char :: r => (1, r)
    | _ => (1, cs)
    end in
  let cs2 :=
    if base =? 16 then
      match cs1 with
      | "0"%char :: x :: r =>
          if Ascii.eqb x "x"%char || Ascii.eqb x "X"%char then
            match r with
            | "_"%char :: r' => r'
            | _ => r
            end
          else cs1
      | _ => cs1
      end
    else cs1 in
  option_map (Z.mul sign) (py_digits base cs2 0 false).

(** Python truthiness of a JSON value. *)
Definition jtruthy (v : jvalue) : bool :=
  match v with
  | JNull => false
  | JInt z => negb (z =? 0)
  | JStr s => negb (String.eqb s "")
  end.

(** [nwk_to_int] of [generate_html]. *)
Definition nwk_to_int (v : jvalue) : option Z :=
  match v with
  | JNull => None
  | JInt z => Some z
  | JStr s => if String.prefix "0x" s then py_int 16 s else py_int 10 s
  end.

(** [int(n.get('lqi', 0) or 0)] guarded by [except (ValueError, TypeError): 0]
    in [generate_html]. *)
Definition link_lqi (v : jvalue) : Z :=
  let v' := if jtruthy v then v else JInt 0 in
  match v' with
  | JNull => 0
  | JInt z => z
  | JStr s => match py_int 10 s with Some z => z | None => 0 end
  end.

(** [int(lqi_raw) if lqi_raw else 0] guarded by
    [except (ValueError, TypeError): 0] in [build_topology]. *)
Definition edge_lqi (v : jvalue) : Z :=
  if jtruthy v then
    match v with
    | JNull => 0
    | JInt z => z
    | JStr s => match py_int 10 s with Some z => z | None => 0 end
    end
  else 0.

Example nwk_hex : nwk_to_int (JStr "0x1A2B") = Some 6699.
Proof. reflexivity. Qed.
Example nwk_dec : nwk_to_int (JStr "6699") = Some 6699.
Proof. reflexivity. Qed.
Example nwk_bad : nwk_to_int (JStr "0X1A") = None.
Proof. reflexivity. Qed.
Example lqi_str : link_lqi (JStr " 1_0 ") = 10.
Proof. reflexivity. Qed.

(** ** Data model *)

Inductive dtype : Type := Coordinator | Router | EndDevice | OtherType.
Inductive relationship : Type := Parent | Child | Sibling | OtherRel.
Inductive route_status : Type := Active | Validation_Underway | OtherStatus.

Definition dtype_eqb (a b : dtype) : bool :=
  match a, b with
  | Coordinator, Coordinator | Router, Router | EndDevice, EndDevice
  | OtherType, OtherType => true
  | _, _ => false
  end.

Definition is_router_or_coord (t : dtype) : bool :=
  dtype_eqb t Router || dtype_eqb t Coordinator.

(** A neighbor-table entry; a missing [ieee] is the empty string. *)
Record neighbor : Type := mkNeighbor {
  n_ieee : string;
  n_nwk : jvalue;
  n_lqi : jvalue;
  n_rel : relationship
}.

Record route : Type := mkRoute {
  r_dest_nwk : jvalue;
  r_next_hop : jvalue;
  r_status : route_status
}.

(** A device of the export's [devices] list. *)
Record device : Type := mkDevice {
  d_ieee : string;
  d_nwk : jvalue;
  d_type : dtype;
  d_neighbors : list neighbor;
  d_routes : list route
}.

(** A node of [topology.nodes] as [build_topology] writes it. *)
Record node : Type := mkNode {
  node_id : string;
  node_type : dtype;
  node_is_coordinator : bool
}.

(** An edge of [topology.edges]; [build_topology] stores an integer [lqi]. *)
Record edge : Type := mkEdge {
  e_source : string;
  e_target : string;
  e_lqi : Z;
  e_rel : relationship
}.

(** ** Python dicts *)

Section PyDict.
Variables (K V : Type) (keqb : K -> K -> bool).

(** [m[k] = v]: overwrite in place, or append a new key. *)
Fixpoint dict_set (k : K) (v : V) (m : list (K * V)) : list (K * V) :=
  match m with
  | [] => [(k, v)]
  | (k', v') :: r => if keqb k k' then (k', v) :: r else (k', v') :: dict_set k v r
  end.

Fixpoint dict_get (k : K) (m : list (K * V)) : option V :=
  match m with
  | [] => None
  | (k', v') :: r => if keqb k k' then Some v' else dict_get k r
  end.

Definition dict_mem (k : K) (m : list (K * V)) : bool :=
  match dict_get k m with Some _ => true | None => false end.

(** [{k: v for (k, v) in l}] *)
Definition dict_of (l : list (K * V)) : list (K * V) :=
  fold_left (fun m kv => dict_set (fst kv) (snd kv) m) l [].

End PyDict.

Arguments dict_set {K V} keqb k v m.
Arguments dict_get {K V} keqb k m.
Arguments dict_mem {K V} keqb k m.
Arguments dict_of {K V} keqb l.

(** ** [build_topology] (main.py) *)

Definition node_of (d : device) : node :=
  {| node_id := d_ieee d;
     node_type := d_type d;
     node_is_coordinator := dtype_eqb (d_type d) Coordinator |}.

Definition edges_of_device (d : device) : list edge :=
  flat_map (fun n =>
              if negb (String.eqb (n_ieee n) "") then
                [{| e_source := d_ieee d; e_target := n_ieee n;
                    e_lqi := edge_lqi (n_lqi n); e_rel := n_rel n |}]
              else [])
           (d_neighbors d).

Definition topo_nodes (devs : list device) : list node := map node_of devs.
Definition topo_edges (devs : list device) : list edge := flat_map edges_of_device devs.

(** The dicts [nodes] (keyed by [id]) and [devices] (keyed by [ieee]) that
    [build_hierarchy] builds from the export. *)
Definition nodes_dict (devs : list device) : list (string * node) :=
  dict_of String.eqb (map (fun n => (node_id n, n)) (topo_nodes devs)).
Definition devices_dict (devs : list device) : list (string * device) :=
  dict_of String.eqb (map (fun d => (d_ieee d, d)) devs).

(** The export file: the raw [devices] list and the [topology] that
    [build_topology] derives from it. *)
Record export : Type := mkExport {
  x_devices : list device;
  x_nodes : list node;
  x_edges : list edge
}.

Definition export_of (devs : list device) : export :=
  {| x_devices := devs; x_nodes := topo_nodes devs; x_edges := topo_edges devs |}.

(** ** [build_hierarchy] (visualize.py) *)

Definition pair_eqb (a b : string * string) : bool :=
  String.eqb (fst a) (fst b) && String.eqb (snd a) (snd b).

(** [tuple(sorted([a, b]))] *)
Definition link_key (a b : string) : string * string :=
  if String.ltb b a then (b, a) else (a, b).

(** One iteration of the [best_link] loop. *)
Definition best_link_step (m : list ((string * string) * Z)) (e : edge)
  : list ((string * string) * Z) :=
  let k := link_key (e_source e) (e_target e) in
  match dict_get pair_eqb k m with
  | Some b => if b <? e_lqi e then dict_set pair_eqb k (e_lqi e) m else m
  | None => dict_set pair_eqb k (e_lqi e) m
  end.

(** The [best_link] reduction over the edge list. *)
Definition best_link (edges : list edge) : list ((string * string) * Z) :=
  fold_left best_link_step edges [].

(** [get_link_lqi] *)
Definition get_link_lqi (best : list ((string * string) * Z)) (id1 id2 : string) : Z :=
  match dict_get pair_eqb (link_key id1 id2) best with
  | Some v => v
  | None => 0
  end.

(** [if k not in m or lqi > m[k][1]: m[k] = (p, lqi)] *)
Definition upd_best (k p : string) (lqi : Z) (m : list (string * (string * Z)))
  : list (string * (string * Z)) :=
  match dict_get String.eqb k m with
  | Some (_, b) => if b <? lqi then dict_set String.eqb k (p, lqi) m else m
  | None => dict_set String.eqb k (p, lqi) m
  end.

Definition node_type_is (nodes : list (string * node)) (k : string) (f : dtype -> bool) : bool :=
  match dict_get String.eqb k nodes with
  | Some n => f (node_type n)
  | None => false
  end.

Definition rel_eqb (a b : relationship) : bool :=
  match a, b with
  | Parent, Parent | Child, Child | Sibling, Sibling | OtherRel, OtherRel => true
  | _, _ => false
  end.

Definition router_parents (nodes : list (string * node)) (edges : list edge)
  : list (string * (string * Z)) :=
  fold_left (fun rp e =>
     let rp1 :=
       if rel_eqb (e_rel e) Parent
          && node_type_is nodes (e_source e) (fun t => dtype_eqb t Router)
       then upd_best (e_source e) (e_target e) (e_lqi e) rp else rp in
     if rel_eqb (e_rel e) Child
        && node_type_is nodes (e_target e) (fun t => dtype_eqb t Router)
        && node_type_is nodes (e_source e) is_router_or_coord
     then upd_best (e_target e) (e_source e) (e_lqi e) rp1 else rp1) edges [].

Definition end_device_parent (nodes : list (string * node)) (edges : list edge)
  : list (string * (string * Z)) :=
  fold_left (fun ep e =>
     if rel_eqb (e_rel e) Child
        && node_type_is nodes (e_source e) is_router_or_coord
        && node_type_is nodes (e_target e) (fun t => dtype_eqb t EndDevice)
     then upd_best (e_target e) (e_source e) (e_lqi e) ep else ep) edges [].

Definition child_entry : Type := string * option Z.
Definition children_map : Type := list (string * list child_entry).

(** [children[p].append(c)] on the [defaultdict(list)] *)
Definition append_child (p : string) (c : child_entry) (m : children_map) : children_map :=
  match dict_get String.eqb p m with
  | Some cs => dict_set String.eqb p (cs ++ [c]) m
  | None => dict_set String.eqb p [c] m
  end.

(** [lqi if lqi > 0 else None] *)
Definition lqi_or_none (lqi : Z) : option Z := if 0 <? lqi then Some lqi else None.

(** The edge scan for an end device without a [Child] report:
    [(best_parent_id, best_lqi)], starting from [(coordinator, 0)]. *)
Definition best_edge_parent (nodes : list (string * node)) (edges : list edge)
    (cid did : string) : string * Z :=
  fold_left (fun acc e =>
     if String.eqb (e_source e) did || String.eqb (e_target e) did then
       let other := if String.eqb (e_source e) did then e_target e else e_source e in
       if node_type_is nodes other is_router_or_coord && (snd acc <? e_lqi e)
       then (other, e_lqi e) else acc
     else acc) edges (cid, 0).

Definition mem_str (k : string) (l : list string) : bool :=
  existsb (String.eqb k) l.

(** Sort key of the children lists:
    [(0 if device_type == 'Router' else 1, -(lqi or 0))]. *)
Definition child_key (nodes : list (string * node)) (c : child_entry) : Z * Z :=
  (if node_type_is nodes (fst c) (fun t => dtype_eqb t Router) then 0 else 1,
   - match snd c with Some l => l | None => 0 end).

Definition key_ltb (a b : Z * Z) : bool :=
  (fst a <? fst b) || ((fst a =? fst b) && (snd a <? snd b)).

(** Python's [list.sort] is stable: insertion sort that puts a later element
    after every earlier one with an equal key. *)
Fixpoint insert_stable {A} (key : A -> Z * Z) (x : A) (l : list A) : list A :=
  match l with
  | [] => [x]
  | y :: r => if key_ltb (key x) (key y) then x :: l else y :: insert_stable key x r
  end.

Definition stable_sort {A} (key : A -> Z * Z) (l : list A) : list A :=
  fold_left (fun acc x => insert_stable key x acc) l [].

Definition find_coordinator (nodes : list (string * node)) : option node :=
  find (fun n => node_is_coordinator n) (map snd nodes).

Record hierarchy : Type := mkHierarchy {
  h_coordinator : node;
  h_nodes : list (string * node);
  h_children : children_map;
  h_devices : list (string * device)
}.

(** Tier 1, one iteration: a Router attached to its best candidate parent
    or to the coordinator. *)
Definition router_step (rp : list (string * (string * Z))) (best : list ((string * string) * Z))
    (cid : string) (st : children_map * list string) (r : node) : children_map * list string :=
  let '(ch, asg) := st in
  let rid := node_id r in
  let ch' :=
    match dict_get String.eqb rid rp with
    | Some (p, l) => append_child p (rid, lqi_or_none l) ch
    | None => append_child cid (rid, lqi_or_none (get_link_lqi best cid rid)) ch
    end in
  (ch', rid :: asg).

Definition router_tier (nodes : list (string * node)) (edges : list edge) (cid : string)
    (st : children_map * list string) : children_map * list string :=
  fold_left (router_step (router_parents nodes edges) (best_link edges) cid)
    (filter (fun n => dtype_eqb (node_type n) Router) (map snd nodes)) st.

(** Tier 2, one iteration: an EndDevice. *)
Definition end_device_step (nodes : list (string * node)) (edges : list edge)
    (ep : list (string * (string * Z))) (cid : string)
    (st : children_map * list string) (d : node) : children_map * list string :=
  let '(ch, asg) := st in
  let did := node_id d in
  if mem_str did asg then st
  else match dict_get String.eqb did ep with
       | Some (p, l) => (append_child p (did, lqi_or_none l) ch, did :: asg)
       | None =>
           let '(bp, bl) := best_edge_parent nodes edges cid did in
           (append_child bp (did, lqi_or_none bl) ch, did :: asg)
       end.

Definition end_device_tier (nodes : list (string * node)) (edges : list edge) (cid : string)
    (st : children_map * list string) : children_map * list string :=
  fold_left (end_device_step nodes edges (end_device_parent nodes edges) cid)
    (filter (fun n => dtype_eqb (node_type n) EndDevice) (map snd nodes)) st.

(** Tier 3, one iteration: an orphan, under the coordinator with unknown
    quality. *)
Definition orphan_step (cid : string) (st : children_map * list string) (n : node)
  : children_map * list string :=
  let '(ch, asg) := st in
  if mem_str (node_id n) asg then st
  else (append_child cid (node_id n, None) ch, node_id n :: asg).

Definition orphan_tier (nodes : list (string * node)) (cid : string)
    (st : children_map * list string) : children_map * list string :=
  fold_left (orphan_step cid) (map snd nodes) st.

(** [build_hierarchy]; [None] is the empty dict returned when no node is
    the coordinator. *)
Definition build_hierarchy (data : export) : option hierarchy :=
  let nodes := dict_of String.eqb (map (fun n => (node_id n, n)) (x_nodes data)) in
  let edges := x_edges data in
  let devices := dict_of String.eqb (map (fun d => (d_ieee d, d)) (x_devices data)) in
  match find_coordinator nodes with
  | None => None
  | Some coord =>
      let cid := node_id coord in
      let st0 := ([] : children_map, [cid]) in
      let st1 := router_tier nodes edges cid st0 in
      let st2 := end_device_tier nodes edges cid st1 in
      let st3 := orphan_tier nodes cid st2 in
      let ch := map (fun pc => (fst pc, stable_sort (child_key nodes) (snd pc))) (fst st3) in
      Some {| h_coordinator := coord; h_nodes := nodes; h_children := ch;
              h_devices := devices |}
  end.

(** [generate_visualization]: [inl] is the [ValueError] raised when the
    hierarchy is empty; the HTML written by [generate_html] is not
    modelled, the run's result is the hierarchy it is built from. *)
Inductive viz_error : Type := CouldNotBuildHierarchy.

Definition generate_visualization (devs : list device) : viz_error + hierarchy :=
  match build_hierarchy (export_of devs) with
  | None => inl CouldNotBuildHierarchy
  | Some h => inr h
  end.

(** All child ids of a children map, parent by parent. *)
Definition child_ids (ch : children_map) : list string :=
  flat_map (fun pc => map fst (snd pc)) ch.

Section HierarchyExamples.
Local Open Scope string_scope.

(** Example of the spec: C <- R (Parent, 200), R <- E (Parent, 150). *)
Definition ex_dev_C := mkDevice "C"%string (JInt 0) Coordinator [] [].
Definition ex_dev_R := mkDevice "R" (JStr "0x0001") Router
  [mkNeighbor "C" (JInt 0) (JInt 200) Parent] [].
Definition ex_dev_E := mkDevice "E" (JStr "0x0002") EndDevice
  [mkNeighbor "R" (JStr "0x0001") (JInt 150) Parent] [].

Example ex_hierarchy :
  option_map h_children (build_hierarchy (export_of [ex_dev_C; ex_dev_R; ex_dev_E]))
  = Some [("C", [("R", Some 200%Z)]); ("R", [("E", Some 150%Z)])].
Proof. vm_compute. reflexivity. Qed.

End HierarchyExamples.

(** ** Primary links of [generate_html] (visualize.py) *)

Inductive source_type : Type := SRoute | SParent | SNeighbor | SFallback.

Record plink : Type := mkPlink {
  pl_target : string;
  pl_lqi : option Z;
  pl_source_type : source_type
}.

Definition links_map : Type := list (string * plink).

(** Python [==] on the modelled JSON values. *)
Definition jv_eqb (a b : jvalue) : bool :=
  match a, b with
  | JNull, JNull => true
  | JInt x, JInt y => Z.eqb x y
  | JStr s, JStr t => String.eqb s t
  | _, _ => false
  end.

(** [nwk_to_ieee]: keyed by the raw [nwk] field, for truthy values. *)
Definition nwk_index (devices : list (string * device)) : list (jvalue * string) :=
  fold_left (fun m kd =>
     if jtruthy (d_nwk (snd kd)) then dict_set jv_eqb (d_nwk (snd kd)) (fst kd) m else m)
    devices [].

Definition route_usable (r : route) : bool :=
  match r_status r with Active | Validation_Underway => true | OtherStatus => false end.

Definition str_truthy (s : string) : bool := negb (String.eqb s "").

(** The lqi of the device's first neighbor entry for the next hop, or 0. *)
Fixpoint next_hop_lqi (ns : list neighbor) (nh : Z) (nh_ieee : string) : Z :=
  match ns with
  | [] => 0
  | n :: r =>
      if match nwk_to_int (n_nwk n) with Some x => x =? nh | None => false end
         || String.eqb (n_ieee n) nh_ieee
      then link_lqi (n_lqi n) else next_hop_lqi r nh nh_ieee
  end.

(** The [for route in routes] scan, [None] when [coord_route] stays [None]. *)
Fixpoint scan_routes (nodes : list (string * node)) (idx : list (jvalue * string))
    (cid : string) (ns : list neighbor) (rs : list route) : option (string * Z) :=
  match rs with
  | [] => None
  | r :: rs' =>
      let next := scan_routes nodes idx cid ns rs' in
      if route_usable r then
        match nwk_to_int (r_dest_nwk r) with
        | Some 0 =>
            match nwk_to_int (r_next_hop r) with
            | Some nh =>
                let nh_ieee := if nh =? 0 then Some cid else dict_get jv_eqb (JInt nh) idx in
                match nh_ieee with
                | Some t =>
                    if str_truthy t && dict_mem String.eqb t nodes
                    then Some (t, next_hop_lqi ns nh t) else next
                | None => next
                end
            | None => next
            end
        | _ => next
        end
      else next
  end.

Definition route_tier (nodes : list (string * node)) (devices : list (string * device))
    (cid : string) (m : links_map) : links_map :=
  let idx := nwk_index devices in
  fold_left (fun m kd =>
     let '(ieee, d) := kd in
     match d_routes d with
     | [] => m
     | rs =>
         match dict_get String.eqb ieee nodes with
         | None => m
         | Some nd =>
             if node_is_coordinator nd then m
             else match scan_routes nodes idx cid (d_neighbors d) rs with
                  | Some (t, l) => dict_set String.eqb ieee (mkPlink t (Some l) SRoute) m
                  | None => m
                  end
         end
     end) devices m.

(** First own neighbor entry marked [Parent] whose ieee is a known node. *)
Fixpoint own_parent (nodes : list (string * node)) (ns : list neighbor) : option (string * Z) :=
  match ns with
  | [] => None
  | n :: r =>
      if rel_eqb (n_rel n) Parent && str_truthy (n_ieee n) && dict_mem String.eqb (n_ieee n) nodes
      then Some (n_ieee n, link_lqi (n_lqi n)) else own_parent nodes r
  end.

Definition parent_tier (nodes : list (string * node)) (devices : list (string * device))
    (m : links_map) : links_map :=
  fold_left (fun m kd =>
     let '(ieee, d) := kd in
     if dict_mem String.eqb ieee m then m
     else match dict_get String.eqb ieee nodes with
          | None => m
          | Some _ =>
              match own_parent nodes (d_neighbors d) with
              | Some (p, l) => dict_set String.eqb ieee (mkPlink p (Some l) SParent) m
              | None => m
              end
          end) devices m.

(** [(best_parent, best_lqi)] over every Router/Coordinator reporting
    [ieee] as its [Child]; starts at [(None, -1)]. *)
Definition child_reports (nodes : list (string * node)) (devices : list (string * device))
    (ieee : string) : option string * Z :=
  fold_left (fun acc kd =>
     let '(other, od) := kd in
     if String.eqb other ieee then acc
     else if negb (node_type_is nodes other is_router_or_coord) then acc
     else fold_left (fun acc n =>
            if String.eqb (n_ieee n) ieee && rel_eqb (n_rel n) Child
               && (snd acc <? link_lqi (n_lqi n))
            then (Some other, link_lqi (n_lqi n)) else acc) (d_neighbors od) acc)
    devices (None, -1).

Definition opt_truthy (o : option string) : option string :=
  match o with Some s => if str_truthy s then Some s else None | None => None end.

Definition child_tier (nodes : list (string * node)) (devices : list (string * device))
    (m : links_map) : links_map :=
  fold_left (fun m kn =>
     let '(ieee, nd) := kn in
     if dict_mem String.eqb ieee m then m
     else if node_is_coordinator nd then m
     else let '(bp, bl) := child_reports nodes devices ieee in
          match opt_truthy bp with
          | Some p => dict_set String.eqb ieee (mkPlink p (Some bl) SParent) m
          | None => m
          end) nodes m.

(** The device's own best neighbor (Router/Coordinator only for end devices). *)
Definition own_best_neighbor (nodes : list (string * node)) (t : dtype) (ns : list neighbor)
  : option string * Z :=
  fold_left (fun acc n =>
     let ni := n_ieee n in
     if negb (str_truthy ni && dict_mem String.eqb ni nodes) then acc
     else let l := link_lqi (n_lqi n) in
          if dtype_eqb t EndDevice then
            if node_type_is nodes ni is_router_or_coord && (snd acc <? l)
            then (Some ni, l) else acc
          else if snd acc <? l then (Some ni, l) else acc) ns (None, -1).

Definition neighbor_tier (nodes : list (string * node)) (devices : list (string * device))
    (m : links_map) : links_map :=
  fold_left (fun m kd =>
     let '(ieee, d) := kd in
     if dict_mem String.eqb ieee m then m
     else match dict_get String.eqb ieee nodes with
          | None => m
          | Some nd =>
              if node_is_coordinator nd then m
              else let '(bn, bl) := own_best_neighbor nodes (node_type nd) (d_neighbors d) in
                   match opt_truthy bn with
                   | Some p => dict_set String.eqb ieee (mkPlink p (Some bl) SNeighbor) m
                   | None => m
                   end
          end) devices m.

Definition fallback_tier (nodes : list (string * node)) (cid : string) (m : links_map)
  : links_map :=
  fold_left (fun m kn =>
     let ieee := fst kn in
     if negb (dict_mem String.eqb ieee m) && negb (String.eqb ieee cid)
     then dict_set String.eqb ieee (mkPlink cid None SFallback) m else m) nodes m.

(** [device_primary_link] *)
Definition primary_links (h : hierarchy) : links_map :=
  let nodes := h_nodes h in
  let devices := h_devices h in
  let cid := node_id (h_coordinator h) in
  fallback_tier nodes cid
    (neighbor_tier nodes devices
      (child_tier nodes devices
        (parent_tier nodes devices
          (route_tier nodes devices cid [])))).

(** ** Path to the coordinator of [generate_html] *)

(** A path entry; the entry's [name] (a lookup of [id]) is not modelled,
    its [device_type] is [None] for ['Unknown']. *)
Record hop : Type := mkHop {
  hop_id : string;
  hop_lqi : option Z;
  hop_type : option dtype
}.

(** The [while] loop; [fuel] bounds its iterations and [None] means the
    bound was hit (the theorems show it never is for [fuel] above the
    number of links). *)
Fixpoint walk (fuel : nat) (nodes : list (string * node)) (links : links_map)
    (cid : string) (visited : list string) (current : string) : option (list hop) :=
  match fuel with
  | O => None
  | S f =>
      if str_truthy current && negb (String.eqb current cid) && negb (mem_str current visited)
      then match dict_get String.eqb current links with
           | Some l =>
               let p := pl_target l in
               let t := option_map node_type (dict_get String.eqb p nodes) in
               option_map (cons (mkHop p (pl_lqi l) t))
                 (walk f nodes links cid (current :: visited) p)
           | None => Some []
           end
      else Some []
  end.

(** [device_paths[node_id]] *)
Definition path_to_coordinator (nodes : list (string * node)) (links : links_map)
    (cid node_id : string) : option (list hop) :=
  if String.eqb node_id cid then Some []
  else walk (S (List.length links)) nodes links cid [] node_id.

Section LinkExamples.
Local Open Scope string_scope.

Definition ex_hier : hierarchy :=
  match build_hierarchy (export_of [ex_dev_C; ex_dev_R; ex_dev_E]) with
  | Some h => h
  | None => mkHierarchy (node_of ex_dev_C) [] [] []
  end.

Example ex_links :
  primary_links ex_hier =
  [("R", mkPlink "C" (Some 200%Z) SParent); ("E", mkPlink "R" (Some 150%Z) SParent)].
Proof. vm_compute. reflexivity. Qed.

Example ex_path :
  path_to_coordinator (h_nodes ex_hier) (primary_links ex_hier) "C" "E"
  = Some [mkHop "R" (Some 150%Z) (Some Router); mkHop "C" (Some 200%Z) (Some Coordinator)].
Proof. vm_compute. reflexivity. Qed.

End LinkExamples.

(** ** Node entries and sibling links of [generate_html] (visualize.py) *)


(** [int(n.get('lqi', 0)) if n.get('lqi') else 0], with no [except]:
    [None] is the [ValueError] that escapes [generate_html]. *)
Definition nl_lqi (v : jvalue) : option Z :=
  if jtruthy v then
    match v with
    | JNull => Some 0
    | JInt z => Some z
    | JStr s => py_int 10 s
    end
  else Some 0.

(** An entry of a d3 node's [neighbors] list ([device_type] not modelled). *)
Record nentry : Type := mkNentry {
  ne_ieee : string;
  ne_lqi : Z;
  ne_rel : relationship
}.

Fixpoint neighbor_list (ns : list neighbor) : option (list nentry) :=
  match ns with
  | [] => Some []
  | n :: r =>
      match nl_lqi (n_lqi n) with
      | Some z => option_map (cons (mkNentry (n_ieee n) z (n_rel n))) (neighbor_list r)
      | None => None
      end
  end.

(** [devices.get(node_id, {}).get('neighbors', [])] *)
Definition device_neighbors (devices : list (string * device)) (k : string) : list neighbor :=
  match dict_get String.eqb k devices with Some d => d_neighbors d | None => [] end.

(** The fields of a [d3_nodes] entry the link code reads. *)
Record d3node : Type := mkD3node {
  dn_id : string;
  dn_type : dtype;
  dn_neighbors : list nentry
}.

Fixpoint d3_nodes (devices : list (string * device)) (nodes : list (string * node))
  : option (list d3node) :=
  match nodes with
  | [] => Some []
  | (k, nd) :: r =>
      match neighbor_list (device_neighbors devices k) with
      | Some nl => option_map (cons (mkD3node k (node_type nd) nl)) (d3_nodes devices r)
      | None => None
      end
  end.

(** A [sibling] entry of [d3_links]. *)
Record slink : Type := mkSlink {
  sl_source : string;
  sl_target : string;
  sl_lqi : Z
}.

(** One neighbor of the sibling loop; the state is [sibling_links_added]
    and the sibling links appended so far. *)
Definition sibling_step (router_ids : list string) (links : links_map) (node_id : string)
    (st : list (string * string) * list slink) (ne : nentry)
  : list (string * string) * list slink :=
  let '(added, out) := st in
  if rel_eqb (ne_rel ne) Sibling && mem_str (ne_ieee ne) router_ids then
    let key := link_key node_id (ne_ieee ne) in
    if existsb (fun kl => pair_eqb (link_key (pl_target (snd kl)) (fst kl)) key) links then st
    else if existsb (pair_eqb key) added then st
    else (key :: added, out ++ [mkSlink node_id (ne_ieee ne) (ne_lqi ne)])
  else st.

Definition sibling_links (d3 : list d3node) (links : links_map) : list slink :=
  let router_ids := map dn_id (filter (fun n => is_router_or_coord (dn_type n)) d3) in
  snd (fold_left (fun st n =>
         if is_router_or_coord (dn_type n)
         then fold_left (sibling_step router_ids links (dn_id n)) (dn_neighbors n) st
         else st) d3 ([], [])).

(** ** Weak devices of [print_topology_summary] (main.py) *)


(** [int(device_lqi_raw) if device_lqi_raw else None] guarded by
    [except (ValueError, TypeError): None] in [build_topology]. *)
Definition device_lqi (v : jvalue) : option Z :=
  if jtruthy v then
    match v with
    | JNull => None
    | JInt z => Some z
    | JStr s => py_int 10 s
    end
  else None.

(** [sorted(weak_devices, key=lambda x: x[1])] of [print_topology_summary],
    over the [(name, lqi)] of the topology's nodes. *)
Definition weak_devices (ns : list (string * option Z)) : list (string * Z) :=
  stable_sort (fun x => (snd x, 0))
    (flat_map (fun n => match snd n with
                        | Some l => if l <? 50 then [(fst n, l)] else []
                        | None => []
                        end) ns).

(** ** Spec-side reading of the hierarchy's reachability *)


(** ** Spec-side reading of the third cascade rule *)

(** [od], the device of the Router or Coordinator [q], reports [k] as its
    [Child] in the neighbor entry [n]. *)
Definition child_report (nodes : list (string * node)) (devices : list (string * device))
    (k q : string) (od : device) (n : neighbor) : Prop :=
  In (q, od) devices /\ q <> k /\ node_type_is nodes q is_router_or_coord = true /\
  In n (d_neighbors od) /\ n_ieee n = k /\ n_rel n = Child.

(** ** Spec-side reading of the Edge Reducer *)

(** Every report (edge) whose unordered pair is [{a, b}]. *)
Definition reports_for (edges : list edge) (a b : string) : list Z :=
  map e_lqi (filter (fun e => pair_eqb (link_key (e_source e) (e_target e)) (link_key a b)) edges).

Definition max_list (l : list Z) : option Z :=
  match l with
  | [] => None
  | x :: r => Some (fold_left Z.max r x)
  end.

(** [edgeQuality(a, b)] as the spec words it: the maximum lqi over every
    report of the pair in either direction, 0 when there is none. *)
Definition edge_quality_spec (edges : list edge) (a b : string) : Z :=
  match max_list (reports_for edges a b) with
  | Some v => v
  | None => 0
  end.

(** ** Spec-side reading of the Primary Link Resolver's cascade *)

(** The next-hop test of the neighbor loop of the route tier. *)
Definition hop_match (nh : Z) (t : string) (n : neighbor) : bool :=
  match nwk_to_int (n_nwk n) with Some x => x =? nh | None => false end
  || String.eqb (n_ieee n) t.


(** * Lemmas *)

Section PyDictFacts.
Variables (K V : Type) (keqb : K -> K -> bool).
Hypothesis keqb_spec : forall a b, keqb a b = true <-> a = b.

Lemma keqb_refl k : keqb k k = true.
Proof. apply keqb_spec; reflexivity. Qed.

Lemma dict_get_set k k' v (m : list (K * V)) :
  dict_get keqb k (dict_set keqb k' v m) = if keqb k k' then Some v else dict_get keqb k m.
Proof.
  induction m as [|[k0 v0] r IH]; simpl.
  - destruct (keqb k k'); reflexivity.
  - destruct (keqb k' k0) eqn:E1.
    + apply keqb_spec in E1; subst k0. simpl.
      destruct (keqb k k') eqn:E2; reflexivity.
    + simpl. rewrite IH.
      destruct (keqb k k0) eqn:E2; [|reflexivity].
      apply keqb_spec in E2; subst k0.
      destruct (keqb k k') eqn:E3; [|reflexivity].
      apply keqb_spec in E3; subst k'. rewrite keqb_refl in E1. discriminate.
Qed.

Lemma dict_set_keys k v (m : list (K * V)) :
  map fst (dict_set keqb k v m) =
  if existsb (keqb k) (map fst m) then map fst m else map fst m ++ [k].
Proof.
  induction m as [|[k0 v0] r IH]; simpl; [reflexivity|].
  destruct (keqb k k0) eqn:E; simpl; [reflexivity|].
  rewrite IH. destruct (existsb (keqb k) (map fst r)); reflexivity.
Qed.

Lemma dict_get_none_keys k (m : list (K * V)) :
  dict_get keqb k m = None <-> ~ In k (map fst m).
Proof.
  induction m as [|[k0 v0] r IH]; simpl; [tauto|].
  destruct (keqb k k0) eqn:E.
  - apply keqb_spec in E; subst. split; [discriminate|tauto].
  - rewrite IH. split; intros H; [intros [H'|H']|]; try tauto.
    + subst. rewrite keqb_refl in E. discriminate.
Qed.

Lemma existsb_keqb_In k (l : list K) : existsb (keqb k) l = true <-> In k l.
Proof.
  rewrite existsb_exists. split.
  - intros [x [Hx E]]. apply keqb_spec in E. subst; assumption.
  - intros H. exists k. split; [assumption|apply keqb_refl].
Qed.

Lemma dict_set_NoDup k v (m : list (K * V)) :
  NoDup (map fst m) -> NoDup (map fst (dict_set keqb k v m)).
Proof.
  intros H. rewrite dict_set_keys.
  destruct (existsb (keqb k) (map fst m)) eqn:E; [assumption|].
  apply NoDup_app; [assumption|constructor; [intros []|constructor]|].
  intros x Hx [Hk|[]]. subst x. apply (existsb_keqb_In k) in Hx. rewrite Hx in E. discriminate.
Qed.

Lemma dict_set_new k v (m : list (K * V)) :
  ~ In k (map fst m) -> dict_set keqb k v m = m ++ [(k, v)].
Proof.
  induction m as [|[k0 v0] r IH]; simpl; intros H; [reflexivity|].
  destruct (keqb k k0) eqn:E.
  - apply keqb_spec in E. subst. tauto.
  - rewrite IH; tauto.
Qed.

Lemma dict_of_fold_nodup (l m : list (K * V)) :
  NoDup (map fst m ++ map fst l) ->
  fold_left (fun m kv => dict_set keqb (fst kv) (snd kv) m) l m = m ++ l.
Proof.
  revert m. induction l as [|[k v] r IH]; intros m H; simpl.
  - rewrite app_nil_r. reflexivity.
  - rewrite dict_set_new.
    + rewrite IH, <- app_assoc; [reflexivity|].
      rewrite map_app, <- app_assoc. simpl. assumption.
    + simpl in H. apply NoDup_remove_2 in H. rewrite in_app_iff in H. tauto.
Qed.

Lemma dict_of_nodup (l : list (K * V)) : NoDup (map fst l) -> dict_of keqb l = l.
Proof. intros H. unfold dict_of. apply dict_of_fold_nodup. exact H. Qed.

Lemma dict_set_in k v k' v' (m : list (K * V)) :
  In (k', v') (dict_set keqb k v m) -> (k' = k /\ v' = v) \/ In (k', v') m.
Proof.
  induction m as [|[k0 v0] r IH]; simpl.
  - intros [H|[]]. inversion H; auto.
  - destruct (keqb k k0) eqn:E.
    + apply keqb_spec in E. subst. intros [H|H]; [inversion H; auto|auto].
    + intros [H|H]; [auto|]. destruct (IH H); auto.
Qed.

Lemma dict_of_forall (Q : K -> V -> Prop) (l : list (K * V)) :
  (forall k v, In (k, v) l -> Q k v) ->
  forall k v, In (k, v) (dict_of keqb l) -> Q k v.
Proof.
  unfold dict_of. intros Hl.
  assert (Hgen : forall m, (forall k v, In (k, v) m -> Q k v) ->
            forall k v, In (k, v) (fold_left (fun m kv => dict_set keqb (fst kv) (snd kv) m) l m) ->
            Q k v).
  { induction l as [|[k0 v0] r IH]; simpl; intros m Hm; [assumption|].
    apply IH; [intros; apply Hl; simpl; auto|].
    intros k v Hin. destruct (dict_set_in _ _ _ _ _ Hin) as [[-> ->]|H];
      [apply Hl; left; reflexivity|apply Hm; exact H]. }
  apply Hgen. intros _ _ [].
Qed.

Lemma dict_of_NoDup (l : list (K * V)) : NoDup (map fst (dict_of keqb l)).
Proof.
  unfold dict_of.
  assert (Hgen : forall m, NoDup (map fst m) ->
            NoDup (map fst (fold_left (fun m kv => dict_set keqb (fst kv) (snd kv) m) l m))).
  { induction l as [|kv r IH]; simpl; intros m Hm; [assumption|].
    apply IH. apply dict_set_NoDup. assumption. }
  apply Hgen. constructor.
Qed.

Lemma dict_get_in k v (m : list (K * V)) : dict_get keqb k m = Some v -> In (k, v) m.
Proof.
  induction m as [|[k0 v0] r IH]; simpl; [discriminate|].
  destruct (keqb k k0) eqn:E.
  - apply keqb_spec in E. intros H; inversion H; subst; auto.
  - auto.
Qed.


Lemma dict_of_keys (l : list (K * V)) k :
  In k (map fst (dict_of keqb l)) <-> In k (map fst l).
Proof.
  unfold dict_of.
  assert (Hgen : forall m, In k (map fst (fold_left (fun m kv => dict_set keqb (fst kv) (snd kv) m) l m))
                           <-> In k (map fst m) \/ In k (map fst l)).
  { induction l as [|[k0 v0] r IH]; simpl; intros m; [tauto|].
    rewrite IH, dict_set_keys. simpl.
    destruct (existsb (keqb k0) (map fst m)) eqn:E.
    - apply (existsb_keqb_In k0) in E. split; [tauto|].
      intros [H|[H|H]]; auto. subst. auto.
    - rewrite in_app_iff. simpl. tauto. }
  rewrite Hgen. simpl. tauto.
Qed.

End PyDictFacts.

Lemma pair_eqb_spec a b : pair_eqb a b = true <-> a = b.
Proof.
  destruct a as [a1 a2], b as [b1 b2]; unfold pair_eqb; simpl.
  rewrite andb_true_iff, !String.eqb_eq. split.
  - intros [-> ->]; reflexivity.
  - intros H; inversion H; auto.
Qed.

Lemma string_eqb_spec' a b : String.eqb a b = true <-> a = b.
Proof. apply String.eqb_eq. Qed.

(** ** Edge Reducer *)

Lemma link_key_sym a b : link_key a b = link_key b a.
Proof.
  unfold link_key, String.ltb. rewrite (String.compare_antisym a b).
  destruct (String.compare b a) eqn:E; simpl; try reflexivity.
  apply String.compare_eq_iff in E. subst. reflexivity.
Qed.

Definition max_opt (o : option Z) (l : list Z) : option Z :=
  fold_left (fun acc x => Some (match acc with Some b => Z.max b x | None => x end)) l o.

Lemma best_link_step_get k m e :
  dict_get pair_eqb k (best_link_step m e) =
  if pair_eqb (link_key (e_source e) (e_target e)) k
  then Some (match dict_get pair_eqb k m with Some b => Z.max b (e_lqi e) | None => e_lqi e end)
  else dict_get pair_eqb k m.
Proof.
  unfold best_link_step.
  set (ke := link_key (e_source e) (e_target e)).
  destruct (pair_eqb ke k) eqn:Ek.
  - apply pair_eqb_spec in Ek. rewrite <- Ek.
    destruct (dict_get pair_eqb ke m) as [b|] eqn:Eg.
    + destruct (b <? e_lqi e) eqn:Elt.
      * rewrite (dict_get_set _ _ _ pair_eqb_spec), (keqb_refl _ _ pair_eqb_spec).
        f_equal. apply Z.ltb_lt in Elt. lia.
      * rewrite Eg. f_equal. apply Z.ltb_ge in Elt. lia.
    + rewrite (dict_get_set _ _ _ pair_eqb_spec), (keqb_refl _ _ pair_eqb_spec). reflexivity.
  - assert (Hk : pair_eqb k ke = false).
    { destruct (pair_eqb k ke) eqn:E; [|reflexivity].
      apply pair_eqb_spec in E. subst. rewrite (keqb_refl _ _ pair_eqb_spec) in Ek. discriminate. }
    destruct (dict_get pair_eqb ke m) as [b|] eqn:Eg.
    + destruct (b <? e_lqi e);
        [rewrite (dict_get_set _ _ _ pair_eqb_spec), Hk|]; reflexivity.
    + rewrite (dict_get_set _ _ _ pair_eqb_spec), Hk. reflexivity.
Qed.

Lemma best_link_fold_get k edges m :
  dict_get pair_eqb k (fold_left best_link_step edges m) =
  max_opt (dict_get pair_eqb k m)
    (map e_lqi (filter (fun e => pair_eqb (link_key (e_source e) (e_target e)) k) edges)).
Proof.
  revert m. induction edges as [|e r IH]; intros m; simpl; [reflexivity|].
  rewrite IH, best_link_step_get.
  destruct (pair_eqb (link_key (e_source e) (e_target e)) k); reflexivity.
Qed.

Lemma max_opt_some x l : max_opt (Some x) l = Some (fold_left Z.max l x).
Proof.
  revert x. induction l as [|y r IH]; intros x; simpl; [reflexivity|].
  apply IH.
Qed.

Lemma max_opt_none l : max_opt None l = max_list l.
Proof. destruct l as [|x r]; simpl; [reflexivity|]. apply max_opt_some. Qed.

Lemma get_link_lqi_spec edges a b :
  get_link_lqi (best_link edges) a b = edge_quality_spec edges a b.
Proof.
  unfold get_link_lqi, edge_quality_spec, best_link, reports_for.
  rewrite best_link_fold_get. simpl. rewrite max_opt_none. reflexivity.
Qed.

(** ** Hierarchy Builder *)

Lemma NoDup_map_inj {A B} (f : A -> B) (l : list A) x y :
  NoDup (map f l) -> In x l -> In y l -> f x = f y -> x = y.
Proof.
  induction l as [|a r IH]; simpl; [tauto|].
  intros Hn Hx Hy Hf. inversion Hn as [|? ? Ha Hr]; subst.
  destruct Hx as [<-|Hx], Hy as [<-|Hy]; auto.
  - exfalso. apply Ha. rewrite Hf. apply in_map. exact Hy.
  - exfalso. apply Ha. rewrite <- Hf. apply in_map. exact Hx.
Qed.

Lemma NoDup_map_filter {A B} (f : A -> B) (g : A -> bool) (l : list A) :
  NoDup (map f l) -> NoDup (map f (filter g l)).
Proof.
  induction l as [|a r IH]; simpl; intros Hn; [constructor|].
  inversion Hn as [|? ? Ha Hr]; subst.
  destruct (g a); simpl; [|auto].
  constructor; [|auto].
  intros Hin. apply Ha. apply in_map_iff in Hin. destruct Hin as [x [Hx Hin]].
  apply filter_In in Hin. rewrite <- Hx. apply in_map. tauto.
Qed.

Lemma filter_all {A} (f : A -> bool) (l : list A) :
  (forall x, In x l -> f x = true) -> filter f l = l.
Proof.
  induction l as [|a r IH]; simpl; intros H; [reflexivity|].
  rewrite (H a (or_introl eq_refl)), IH; [reflexivity|]. intros x Hx. apply H. auto.
Qed.

Lemma Permutation_pick (x : string) (l : list string) :
  NoDup l -> In x l -> Permutation l (x :: filter (fun k => negb (String.eqb k x)) l).
Proof.
  induction l as [|a r IH]; simpl; [tauto|].
  intros Hn Hin. inversion Hn as [|? ? Ha Hr]; subst.
  destruct (String.eqb a x) eqn:E; simpl.
  - apply String.eqb_eq in E. subst.
    assert (Hf : filter (fun k => negb (String.eqb k x)) r = r).
    { apply filter_all. intros y Hy. destruct (String.eqb y x) eqn:Ey; [|reflexivity].
      apply String.eqb_eq in Ey. subst. contradiction. }
    rewrite Hf. reflexivity.
  - destruct Hin as [Hin|Hin]; [subst; rewrite String.eqb_refl in E; discriminate|].
    rewrite (IH Hr Hin) at 1. apply perm_swap.
Qed.

Lemma child_ids_append p c (m : children_map) :
  Permutation (child_ids (append_child p c m)) (fst c :: child_ids m).
Proof.
  unfold append_child.
  induction m as [|[k cs] r IH]; simpl; [reflexivity|].
  destruct (String.eqb p k) eqn:E; simpl.
  - rewrite map_app. simpl. rewrite <- app_assoc. simpl.
    symmetry. apply Permutation_middle.
  - destruct (dict_get String.eqb p r) eqn:Eg; simpl in IH |- *;
      rewrite IH; symmetry; apply Permutation_middle.
Qed.

Lemma insert_stable_perm {A} (key : A -> Z * Z) x l :
  Permutation (insert_stable key x l) (x :: l).
Proof.
  induction l as [|y r IH]; simpl; [reflexivity|].
  destruct (key_ltb (key x) (key y)); [reflexivity|].
  rewrite IH. apply perm_swap.
Qed.

Lemma stable_sort_perm {A} (key : A -> Z * Z) l : Permutation (stable_sort key l) l.
Proof.
  unfold stable_sort.
  assert (H : forall acc, Permutation (fold_left (fun acc x => insert_stable key x acc) l acc)
                                      (l ++ acc)).
  { induction l as [|x r IH]; intros acc; simpl; [reflexivity|].
    rewrite IH, insert_stable_perm. symmetry. apply Permutation_middle. }
  rewrite H, app_nil_r. reflexivity.
Qed.

Lemma child_ids_sorted key (ch : children_map) :
  Permutation (child_ids (map (fun pc => (fst pc, stable_sort key (snd pc))) ch)) (child_ids ch).
Proof.
  induction ch as [|[p cs] r IH]; simpl; [reflexivity|].
  apply Permutation_app; [|exact IH].
  apply Permutation_map, stable_sort_perm.
Qed.

Lemma mem_str_In k l : mem_str k l = true <-> In k l.
Proof. apply (existsb_keqb_In _ _ string_eqb_spec'). Qed.

Section Tiers.
Variables (keys : list string) (cid : string).

(** The builder's bookkeeping: the coordinator plus every child placed so
    far is exactly the [assigned] set, without repetition, within the node
    identities. *)
Definition tier_inv (st : children_map * list string) : Prop :=
  Permutation (cid :: child_ids (fst st)) (snd st) /\ NoDup (snd st) /\ incl (snd st) keys.

Lemma tier_inv_add ch asg p x l :
  tier_inv (ch, asg) -> ~ In x asg -> In x keys ->
  tier_inv (append_child p (x, l) ch, x :: asg).
Proof.
  intros [Hp [Hn Hi]] Hx Hk. unfold tier_inv; simpl. split; [|split].
  - rewrite child_ids_append. simpl. rewrite perm_swap. apply perm_skip. exact Hp.
  - constructor; assumption.
  - intros y [<-|Hy]; auto.
Qed.

Lemma router_tier_inv rp best (rs : list node) st :
  tier_inv st -> NoDup (map node_id rs ++ snd st) -> incl (map node_id rs) keys ->
  tier_inv (fold_left (router_step rp best cid) rs st).
Proof.
  revert st. induction rs as [|r rest IH]; intros [ch asg] Hj Hn Hi; simpl; [exact Hj|].
  simpl in Hn. inversion Hn as [|? ? Hr Hrest]; subst.
  apply IH.
  - assert (Hna : ~ In (node_id r) asg)
      by (intros Ha; apply Hr; apply in_or_app; right; exact Ha).
    assert (Hk : In (node_id r) keys) by (apply Hi; left; reflexivity).
    unfold router_step.
    destruct (dict_get String.eqb (node_id r) rp) as [[p l]|];
      apply tier_inv_add; assumption.
  - simpl. eapply Permutation_NoDup; [apply Permutation_middle|].
    constructor; assumption.
  - intros y Hy. apply Hi. right. exact Hy.
Qed.

Lemma end_device_tier_inv nodes edges ep (ds : list node) st :
  tier_inv st -> incl (map node_id ds) keys ->
  tier_inv (fold_left (end_device_step nodes edges ep cid) ds st).
Proof.
  revert st. induction ds as [|d rest IH]; intros [ch asg] Hj Hi; simpl; [exact Hj|].
  apply IH; [|intros y Hy; apply Hi; right; exact Hy].
  unfold end_device_step.
  destruct (mem_str (node_id d) asg) eqn:Em; [exact Hj|].
  assert (Hna : ~ In (node_id d) asg).
  { intros Ha. apply mem_str_In in Ha. rewrite Ha in Em. discriminate. }
  assert (Hk : In (node_id d) keys) by (apply Hi; left; reflexivity).
  destruct (dict_get String.eqb (node_id d) ep) as [[p l]|].
  - apply tier_inv_add; assumption.
  - destruct (best_edge_parent nodes edges cid (node_id d)) as [bp bl].
    apply tier_inv_add; assumption.
Qed.

Lemma orphan_tier_inv (ns : list node) st :
  tier_inv st -> incl (map node_id ns) keys ->
  tier_inv (fold_left (orphan_step cid) ns st) /\
  incl (map node_id ns ++ snd st) (snd (fold_left (orphan_step cid) ns st)).
Proof.
  revert st. induction ns as [|n rest IH]; intros [ch asg] Hj Hi; simpl.
  - split; [exact Hj|]. intros y Hy; exact Hy.
  - unfold orphan_step at 2.
    destruct (mem_str (node_id n) asg) eqn:Em.
    + destruct (IH (ch, asg) Hj) as [Hj' Hin]; [intros y Hy; apply Hi; right; exact Hy|].
      split; [exact Hj'|]. intros y [<-|Hy]; apply Hin; simpl.
      * apply in_or_app. right. apply mem_str_In. exact Em.
      * exact Hy.
    + assert (Hna : ~ In (node_id n) asg).
      { intros Ha. apply mem_str_In in Ha. rewrite Ha in Em. discriminate. }
      assert (Hk : In (node_id n) keys) by (apply Hi; left; reflexivity).
      destruct (IH (append_child cid (node_id n, None) ch, node_id n :: asg)) as [Hj' Hin].
      * apply tier_inv_add; assumption.
      * intros y Hy; apply Hi; right; exact Hy.
      * split; [exact Hj'|]. intros y Hy. apply Hin. simpl in Hy |- *.
        rewrite in_app_iff in Hy |- *. simpl. tauto.
Qed.

End Tiers.

(** Facts on the [nodes] dict built from an export: keys are distinct and
    each key is its node's [id], whose [is_coordinator] flag is its type. *)
Definition nodes_of_export (data : export) : list (string * node) :=
  dict_of String.eqb (map (fun n => (node_id n, n)) (x_nodes data)).

Lemma nodes_of_export_facts devs :
  let nodes := nodes_of_export (export_of devs) in
  NoDup (map fst nodes) /\
  (forall k n, In (k, n) nodes ->
     k = node_id n /\ node_is_coordinator n = dtype_eqb (node_type n) Coordinator).
Proof.
  simpl. split; [apply (dict_of_NoDup _ _ _ string_eqb_spec')|].
  apply (dict_of_forall _ _ _ string_eqb_spec'
           (fun k n => k = node_id n /\ node_is_coordinator n = dtype_eqb (node_type n) Coordinator)).
  intros k n Hin. unfold export_of, topo_nodes in Hin. simpl in Hin.
  apply in_map_iff in Hin. destruct Hin as [n' [Heq Hin]]. inversion Heq; subst.
  apply in_map_iff in Hin. destruct Hin as [d [<- _]]. simpl. auto.
Qed.

Lemma nodes_keys (nodes : list (string * node)) :
  (forall k n, In (k, n) nodes -> k = node_id n) ->
  map fst nodes = map node_id (map snd nodes).
Proof.
  intros H. rewrite map_map. apply map_ext_in. intros [k n] Hin. apply (H k n Hin).
Qed.

Lemma in_values_in {A B} (v : B) (l : list (A * B)) :
  In v (map snd l) -> exists k, In (k, v) l.
Proof.
  intros Hin. apply in_map_iff in Hin. destruct Hin as [[k v'] [Hv Hin]].
  simpl in Hv. subst. eauto.
Qed.

(** The three tiers place every node but the coordinator exactly once. *)
Lemma hierarchy_children_perm devs h :
  build_hierarchy (export_of devs) = Some h ->
  NoDup (map fst (h_nodes h)) /\
  In (node_id (h_coordinator h)) (map fst (h_nodes h)) /\
  Permutation (child_ids (h_children h))
    (filter (fun k => negb (String.eqb k (node_id (h_coordinator h)))) (map fst (h_nodes h))).
Proof.
  destruct (nodes_of_export_facts devs) as [Hnd Hwf].
  unfold build_hierarchy. fold (nodes_of_export (export_of devs)).
  set (nodes := nodes_of_export (export_of devs)) in *.
  destruct (find_coordinator nodes) as [coord|] eqn:Fc; [|discriminate].
  intros Hh. inversion Hh; subst h; clear Hh. simpl.
  set (cid := node_id coord).
  set (ns := map snd nodes).
  assert (Hkeys : map fst nodes = map node_id ns)
    by (apply nodes_keys; intros k n Hin; apply (Hwf k n Hin)).
  set (keys := map fst nodes) in *.
  assert (Hwf' : forall n, In n ns -> node_is_coordinator n = dtype_eqb (node_type n) Coordinator).
  { intros n Hn. destruct (in_values_in n nodes Hn) as [k Hk]. apply (Hwf k n Hk). }
  unfold find_coordinator in Fc. apply find_some in Fc. destruct Fc as [Hcin Hcc].
  fold ns in Hcin.
  assert (Hcid : In cid keys) by (rewrite Hkeys; apply in_map; exact Hcin).
  assert (Hndn : NoDup (map node_id ns)) by (rewrite <- Hkeys; exact Hnd).
  split; [exact Hnd|]. split; [exact Hcid|].
  set (rs := filter (fun n => dtype_eqb (node_type n) Router) ns).
  assert (Hr : tier_inv keys cid
                 (router_tier nodes (x_edges (export_of devs)) cid ([], [cid]))).
  { apply router_tier_inv.
    - unfold tier_inv; simpl. split; [reflexivity|]. split.
      + constructor; [intros []|constructor].
      + intros y [<-|[]]. exact Hcid.
    - simpl. eapply Permutation_NoDup; [apply Permutation_cons_append|].
      constructor; [|apply NoDup_map_filter; exact Hndn].
      intros Hin. apply in_map_iff in Hin. destruct Hin as [r [Hrc Hrin]].
      apply filter_In in Hrin. destruct Hrin as [Hrin Hrt].
      assert (r = coord) by (apply (NoDup_map_inj node_id ns); assumption).
      subst r. rewrite Hwf' in Hcc by exact Hcin.
      destruct (node_type coord); discriminate.
    - rewrite Hkeys. intros y Hy. apply in_map_iff in Hy. destruct Hy as [r [<- Hrin]].
      apply filter_In in Hrin. apply in_map. tauto. }
  set (st1 := router_tier nodes (x_edges (export_of devs)) cid ([], [cid])) in *.
  assert (He : tier_inv keys cid (end_device_tier nodes (x_edges (export_of devs)) cid st1)).
  { apply end_device_tier_inv; [exact Hr|].
    rewrite Hkeys. intros y Hy. apply in_map_iff in Hy. destruct Hy as [r [<- Hrin]].
    apply filter_In in Hrin. apply in_map. tauto. }
  set (st2 := end_device_tier nodes (x_edges (export_of devs)) cid st1) in *.
  destruct (orphan_tier_inv keys cid ns st2 He) as [[Hp [Hn Hi]] Hall];
    [rewrite Hkeys; intros y Hy; exact Hy|].
  unfold orphan_tier. fold ns.
  rewrite child_ids_sorted.
  assert (Hpk : Permutation (snd (fold_left (orphan_step cid) ns st2)) keys).
  { apply NoDup_Permutation; [exact Hn|exact Hnd|].
    intros x. split; [apply Hi|]. intros Hx. apply Hall. apply in_or_app. left.
    rewrite <- Hkeys. exact Hx. }
  apply (Permutation_cons_inv (a := cid)).
  eapply Permutation_trans; [exact Hp|]. rewrite Hpk. apply Permutation_pick; assumption.
Qed.


Lemma append_child_in p x (ch : children_map) p' cs' c :
  In (p', cs') (append_child p x ch) -> In c cs' ->
  (p' = p /\ c = x) \/ exists cs0, In (p', cs0) ch /\ In c cs0.
Proof.
  unfold append_child. intros Hin Hc.
  destruct (dict_get String.eqb p ch) as [cs|] eqn:Eg;
    destruct (dict_set_in _ _ _ string_eqb_spec' _ _ _ _ _ Hin) as [[-> ->]|H];
    eauto.
  - apply in_app_iff in Hc. destruct Hc as [Hc|[Hc|[]]]; [|auto].
    right. exists cs. split; [|exact Hc]. apply (dict_get_in _ _ _ string_eqb_spec'). exact Eg.
  - destruct Hc as [Hc|[]]. auto.
Qed.








Lemma sorted_children_in key (ch : children_map) p cs c :
  In (p, cs) (map (fun pc => (fst pc, stable_sort key (snd pc))) ch) -> In c cs ->
  exists cs0, In (p, cs0) ch /\ In c cs0.
Proof.
  intros Hin Hc. apply in_map_iff in Hin. destruct Hin as [[p0 cs0] [Heq Hin]].
  inversion Heq; subst. exists cs0. split; [exact Hin|].
  apply (Permutation_in _ (stable_sort_perm key cs0)). exact Hc.
Qed.


(** ** Primary Link Resolver *)

Lemma fold_left_ext_step {A B} (f f' : A -> B -> A) (l : list B) (a : A) :
  (forall a x, f a x = f' a x) -> fold_left f l a = fold_left f' l a.
Proof.
  intros H. revert a. induction l as [|x r IH]; intros a; simpl; [reflexivity|].
  rewrite H. apply IH.
Qed.

Section TierFold.
Variable A : Type.
(** A tier that, for the entry [(k, a)], sets [k] to the value [g k a cur]
    computed from [k]'s current link [cur], or leaves the map alone. *)
Variable g : string -> A -> option plink -> option plink.

Definition gstep (m : links_map) (ka : string * A) : links_map :=
  match g (fst ka) (snd ka) (dict_get String.eqb (fst ka) m) with
  | Some v => dict_set String.eqb (fst ka) v m
  | None => m
  end.

Lemma gstep_other m k ka : fst ka <> k ->
  dict_get String.eqb k (gstep m ka) = dict_get String.eqb k m.
Proof.
  intros Hne. unfold gstep.
  destruct (g _ _ _); [|reflexivity].
  rewrite (dict_get_set _ _ _ string_eqb_spec').
  destruct (String.eqb_spec k (fst ka)); [congruence|reflexivity].
Qed.

Lemma gfold_absent (l : list (string * A)) m k : ~ In k (map fst l) ->
  dict_get String.eqb k (fold_left gstep l m) = dict_get String.eqb k m.
Proof.
  revert m. induction l as [|ka r IH]; intros m Hk; simpl; [reflexivity|].
  simpl in Hk. rewrite IH by tauto. apply gstep_other. tauto.
Qed.

Lemma gfold_get (l : list (string * A)) m k a :
  NoDup (map fst l) -> In (k, a) l ->
  dict_get String.eqb k (fold_left gstep l m) =
  match g k a (dict_get String.eqb k m) with
  | Some v => Some v
  | None => dict_get String.eqb k m
  end.
Proof.
  revert m. induction l as [|[k' a'] r IH]; intros m Hn Hin; simpl; [contradiction|].
  inversion Hn as [|? ? Hk' Hr]; subst.
  destruct Hin as [Heq|Hin].
  - inversion Heq; subst. rewrite gfold_absent by exact Hk'.
    unfold gstep; simpl. destruct (g k a (dict_get String.eqb k m)) as [v|].
    + rewrite (dict_get_set _ _ _ string_eqb_spec'), String.eqb_refl. reflexivity.
    + reflexivity.
  - assert (Hne : k' <> k).
    { intros ->. apply Hk'. apply (in_map fst) in Hin. exact Hin. }
    rewrite IH by assumption. rewrite (gstep_other m k (k', a') Hne). reflexivity.
Qed.

Lemma gfold_forall (P : string -> plink -> Prop) (l : list (string * A)) m :
  (forall k v, In (k, v) m -> P k v) ->
  (forall k a cur v, In (k, a) l -> g k a cur = Some v -> P k v) ->
  forall k v, In (k, v) (fold_left gstep l m) -> P k v.
Proof.
  revert m. induction l as [|[k' a'] r IH]; intros m Hm Hg; simpl; [exact Hm|].
  apply IH; [|intros; eapply Hg; [right; eassumption|eassumption]].
  intros k v Hin. unfold gstep in Hin; simpl in Hin.
  destruct (g k' a' (dict_get String.eqb k' m)) as [w|] eqn:E; [|exact (Hm _ _ Hin)].
  destruct (dict_set_in _ _ _ string_eqb_spec' _ _ _ _ _ Hin) as [[-> ->]|H].
  - eapply Hg; [left; reflexivity|exact E].
  - exact (Hm _ _ H).
Qed.

End TierFold.

Arguments gstep {A} g m ka.

Definition g_route (nodes : list (string * node)) (idx : list (jvalue * string)) (cid : string)
    (k : string) (d : device) (cur : option plink) : option plink :=
  match d_routes d with
  | [] => None
  | rs =>
      match dict_get String.eqb k nodes with
      | None => None
      | Some nd =>
          if node_is_coordinator nd then None
          else match scan_routes nodes idx cid (d_neighbors d) rs with
               | Some (t, l) => Some (mkPlink t (Some l) SRoute)
               | None => None
               end
      end
  end.

Definition g_parent (nodes : list (string * node)) (k : string) (d : device)
    (cur : option plink) : option plink :=
  match cur with
  | Some _ => None
  | None =>
      match dict_get String.eqb k nodes with
      | None => None
      | Some _ =>
          match own_parent nodes (d_neighbors d) with
          | Some (p, l) => Some (mkPlink p (Some l) SParent)
          | None => None
          end
      end
  end.

Definition g_child (nodes : list (string * node)) (devices : list (string * device))
    (k : string) (nd : node) (cur : option plink) : option plink :=
  match cur with
  | Some _ => None
  | None =>
      if node_is_coordinator nd then None
      else match opt_truthy (fst (child_reports nodes devices k)) with
           | Some p => Some (mkPlink p (Some (snd (child_reports nodes devices k))) SParent)
           | None => None
           end
  end.

Definition g_neighbor (nodes : list (string * node)) (k : string) (d : device)
    (cur : option plink) : option plink :=
  match cur with
  | Some _ => None
  | None =>
      match dict_get String.eqb k nodes with
      | None => None
      | Some nd =>
          if node_is_coordinator nd then None
          else let r := own_best_neighbor nodes (node_type nd) (d_neighbors d) in
               match opt_truthy (fst r) with
               | Some p => Some (mkPlink p (Some (snd r)) SNeighbor)
               | None => None
               end
      end
  end.

Definition g_fallback (cid : string) (k : string) (nd : node) (cur : option plink)
  : option plink :=
  match cur with
  | Some _ => None
  | None => if String.eqb k cid then None else Some (mkPlink cid None SFallback)
  end.

Lemma route_tier_g nodes devices cid m :
  route_tier nodes devices cid m = fold_left (gstep (g_route nodes (nwk_index devices) cid)) devices m.
Proof.
  unfold route_tier. apply fold_left_ext_step. intros m' [k d]. unfold gstep, g_route.
  cbn [fst snd].
  destruct (d_routes d) as [|r rs]; [reflexivity|].
  destruct (dict_get String.eqb k nodes) as [nd|]; [|reflexivity].
  destruct (node_is_coordinator nd); [reflexivity|].
  destruct (scan_routes nodes (nwk_index devices) cid (d_neighbors d) (r :: rs)) as [[t lq]|];
    reflexivity.
Qed.

Lemma parent_tier_g nodes devices m :
  parent_tier nodes devices m = fold_left (gstep (g_parent nodes)) devices m.
Proof.
  unfold parent_tier. apply fold_left_ext_step. intros m' [k d]. unfold gstep, g_parent, dict_mem; simpl.
  destruct (dict_get String.eqb k m'); [reflexivity|].
  destruct (dict_get String.eqb k nodes); [|reflexivity].
  destruct (own_parent nodes (d_neighbors d)) as [[p lq]|]; reflexivity.
Qed.

Lemma child_tier_g nodes devices m :
  child_tier nodes devices m = fold_left (gstep (g_child nodes devices)) nodes m.
Proof.
  unfold child_tier. apply fold_left_ext_step. intros m' [k nd]. unfold gstep, g_child, dict_mem; simpl.
  destruct (dict_get String.eqb k m'); [reflexivity|].
  destruct (node_is_coordinator nd); [reflexivity|].
  destruct (child_reports nodes devices k) as [bp bl]; simpl.
  destruct (opt_truthy bp); reflexivity.
Qed.

Lemma neighbor_tier_g nodes devices m :
  neighbor_tier nodes devices m = fold_left (gstep (g_neighbor nodes)) devices m.
Proof.
  unfold neighbor_tier. apply fold_left_ext_step. intros m' [k d]. unfold gstep, g_neighbor, dict_mem; simpl.
  destruct (dict_get String.eqb k m'); [reflexivity|].
  destruct (dict_get String.eqb k nodes) as [nd|]; [|reflexivity].
  destruct (node_is_coordinator nd); [reflexivity|].
  destruct (own_best_neighbor nodes (node_type nd) (d_neighbors d)) as [bn bl]; simpl.
  destruct (opt_truthy bn); reflexivity.
Qed.

Lemma fallback_tier_g nodes cid m :
  fallback_tier nodes cid m = fold_left (gstep (g_fallback cid)) nodes m.
Proof.
  unfold fallback_tier. apply fold_left_ext_step. intros m' [k nd]. unfold gstep, g_fallback, dict_mem; simpl.
  destruct (dict_get String.eqb k m'); simpl; [reflexivity|].
  destruct (String.eqb k cid); reflexivity.
Qed.

Lemma own_best_neighbor_nonneg nodes t ns :
  fst (own_best_neighbor nodes t ns) <> None -> 0 <= snd (own_best_neighbor nodes t ns).
Proof.
  unfold own_best_neighbor.
  assert (Hgen : forall acc : option string * Z,
    -1 <= snd acc -> (fst acc <> None -> 0 <= snd acc) ->
    let r := fold_left (fun acc n =>
       let ni := n_ieee n in
       if negb (str_truthy ni && dict_mem String.eqb ni nodes) then acc
       else let l := link_lqi (n_lqi n) in
            if dtype_eqb t EndDevice then
              if node_type_is nodes ni is_router_or_coord && (snd acc <? l)
              then (Some ni, l) else acc
            else if snd acc <? l then (Some ni, l) else acc) ns acc in
    -1 <= snd r /\ (fst r <> None -> 0 <= snd r)).
  { induction ns as [|n r IH]; simpl; intros acc H1 H2; [auto|].
    apply IH;
      destruct (negb (str_truthy (n_ieee n) && dict_mem String.eqb (n_ieee n) nodes)); auto;
      destruct (dtype_eqb t EndDevice);
      try destruct (node_type_is nodes (n_ieee n) is_router_or_coord); simpl; auto;
      destruct (snd acc <? link_lqi (n_lqi n)) eqn:E; simpl; auto;
      apply Z.ltb_lt in E; intros; lia. }
  intros H. apply (Hgen (None, -1)); simpl; [lia|congruence|exact H].
Qed.

(** The shape of every primary link: [lqi] is [None] exactly for the
    fallback, and a neighbor-sourced lqi is non-negative. *)
Definition link_shape (v : plink) : Prop :=
  (pl_lqi v = None <-> pl_source_type v = SFallback) /\
  (pl_source_type v = SNeighbor -> exists z, pl_lqi v = Some z /\ 0 <= z).

Lemma primary_links_shape h k v :
  In (k, v) (primary_links h) -> link_shape v.
Proof.
  unfold primary_links.
  rewrite fallback_tier_g, neighbor_tier_g, child_tier_g, parent_tier_g, route_tier_g.
  revert k v.
  apply (gfold_forall _ _ (fun _ v => link_shape v)); [apply (gfold_forall _ _ (fun _ v => link_shape v)); [apply (gfold_forall _ _ (fun _ v => link_shape v)); [apply (gfold_forall _ _ (fun _ v => link_shape v)); [apply (gfold_forall _ _ (fun _ v => link_shape v)); [intros _ _ []|]|]|]|]|].
  - intros k d cur v _. unfold g_route.
    destruct (d_routes d) as [|r rs]; [discriminate|].
    destruct (dict_get String.eqb k _) as [nd|]; [|discriminate].
    destruct (node_is_coordinator nd); [discriminate|].
    destruct (scan_routes _ _ _ _ (r :: rs)) as [[t lq]|]; [|discriminate].
    intros E; inversion E; subst. split; simpl; [split; discriminate|discriminate].
  - intros k d cur v _. unfold g_parent.
    destruct cur; [discriminate|]. destruct (dict_get String.eqb k _); [|discriminate].
    destruct (own_parent _ _) as [[p lq]|]; [|discriminate].
    intros E; inversion E; subst. split; simpl; [split; discriminate|discriminate].
  - intros k nd cur v _. unfold g_child.
    destruct cur; [discriminate|]. destruct (node_is_coordinator nd); [discriminate|].
    destruct (opt_truthy _); [|discriminate].
    intros E; inversion E; subst. split; simpl; [split; discriminate|discriminate].
  - intros k d cur v _. unfold g_neighbor.
    destruct cur; [discriminate|]. destruct (dict_get String.eqb k _) as [nd|]; [|discriminate].
    destruct (node_is_coordinator nd); [discriminate|].
    destruct (opt_truthy (fst (own_best_neighbor _ (node_type nd) (d_neighbors d)))) as [p|] eqn:Eo;
      [|discriminate].
    intros E; inversion E; subst. split; simpl; [split; discriminate|].
    intros _. eexists; split; [reflexivity|]. apply own_best_neighbor_nonneg.
    unfold opt_truthy in Eo. destruct (fst _); congruence.
  - intros k nd cur v _. unfold g_fallback.
    destruct cur; [discriminate|]. destruct (String.eqb k _); [discriminate|].
    intros E; inversion E; subst. split; simpl; [split; reflexivity|discriminate].
Qed.

Lemma rel_eqb_spec a b : rel_eqb a b = true <-> a = b.
Proof. destruct a, b; simpl; split; congruence. Qed.

Lemma child_reports_inner k other (ns : list neighbor) (acc : option string * Z) :
  let r := fold_left (fun acc n =>
             if String.eqb (n_ieee n) k && rel_eqb (n_rel n) Child
                && (snd acc <? link_lqi (n_lqi n))
             then (Some other, link_lqi (n_lqi n)) else acc) ns acc in
  (forall n, In n ns -> n_ieee n = k -> n_rel n = Child -> link_lqi (n_lqi n) <= snd r) /\
  snd acc <= snd r /\
  (r = acc \/ exists n, In n ns /\ n_ieee n = k /\ n_rel n = Child /\
                        r = (Some other, link_lqi (n_lqi n))).
Proof.
  revert acc. induction ns as [|n rest IH]; intros acc; simpl.
  - split; [intros _ []|]. split; [lia|left; reflexivity].
  - set (acc' := if String.eqb (n_ieee n) k && rel_eqb (n_rel n) Child
                    && (snd acc <? link_lqi (n_lqi n))
                 then (Some other, link_lqi (n_lqi n)) else acc).
    destruct (IH acc') as [H1 [H2 H3]].
    assert (Hn : n_ieee n = k -> n_rel n = Child -> link_lqi (n_lqi n) <= snd acc').
    { intros Hk Hr. unfold acc'. rewrite Hk, String.eqb_refl. rewrite Hr. simpl.
      destruct (snd acc <? link_lqi (n_lqi n)) eqn:E; simpl; [lia|].
      apply Z.ltb_ge in E. exact E. }
    assert (Hacc : snd acc <= snd acc' /\
                   (acc' = acc \/ (n_ieee n = k /\ n_rel n = Child /\
                                   acc' = (Some other, link_lqi (n_lqi n))))).
    { unfold acc'.
      destruct (String.eqb (n_ieee n) k) eqn:Ek; simpl; [|split; [lia|left; reflexivity]].
      destruct (rel_eqb (n_rel n) Child) eqn:Er; simpl; [|split; [lia|left; reflexivity]].
      destruct (snd acc <? link_lqi (n_lqi n)) eqn:E; simpl; [|split; [lia|left; reflexivity]].
      apply Z.ltb_lt in E. split; [lia|right].
      apply String.eqb_eq in Ek. apply rel_eqb_spec in Er. auto. }
    fold acc'. split; [|split].
    + intros n' [<-|Hn'] Hk Hr; [specialize (Hn Hk Hr); lia|exact (H1 n' Hn' Hk Hr)].
    + lia.
    + destruct H3 as [->|[n' [Hn' Hrest]]].
      * destruct Hacc as [_ [->|[Hk [Hr ->]]]]; [left; reflexivity|].
        right. exists n. auto.
      * right. exists n'. auto.
Qed.

Lemma child_report_cons nodes x ds k q od n :
  child_report nodes ds k q od n -> child_report nodes (x :: ds) k q od n.
Proof. intros [Hin Hr]. split; [right; exact Hin|exact Hr]. Qed.

Lemma child_reports_spec nodes devices k :
  let r := child_reports nodes devices k in
  (forall q od n, child_report nodes devices k q od n -> link_lqi (n_lqi n) <= snd r) /\
  (fst r = None -> snd r = -1) /\
  (forall p, fst r = Some p ->
     exists od n, child_report nodes devices k p od n /\ link_lqi (n_lqi n) = snd r).
Proof.
  unfold child_reports.
  assert (Hgen : forall ds (acc : option string * Z),
    (fst acc = None -> snd acc = -1) ->
    let r := fold_left (fun acc kd =>
     let '(other, od) := kd in
     if String.eqb other k then acc
     else if negb (node_type_is nodes other is_router_or_coord) then acc
     else fold_left (fun acc n =>
            if String.eqb (n_ieee n) k && rel_eqb (n_rel n) Child
               && (snd acc <? link_lqi (n_lqi n))
            then (Some other, link_lqi (n_lqi n)) else acc) (d_neighbors od) acc) ds acc in
    (forall q od n, child_report nodes ds k q od n -> link_lqi (n_lqi n) <= snd r) /\
    snd acc <= snd r /\
    (fst r = None -> snd r = -1) /\
    (r = acc \/ exists p od n, fst r = Some p /\ child_report nodes ds k p od n /\
                               link_lqi (n_lqi n) = snd r)).
  { induction ds as [|[other od] rest IH]; intros acc Hacc; simpl.
    - split; [intros q od n [[] _]|]. split; [lia|]. split; [exact Hacc|left; reflexivity].
    - destruct (String.eqb_spec other k) as [Eo|Eo].
      + destruct (IH acc Hacc) as [H1 [H2 [H3 H4]]]. split; [|split; [exact H2|split; [exact H3|]]].
        * intros q od' n [[Hin|Hin] [Hq Hrest]]; [inversion Hin; subst; contradiction|].
          apply (H1 q od' n). split; auto.
        * destruct H4 as [H4|[p [od' [n [Hp [Hr Hl]]]]]]; [left; exact H4|].
          right. exists p, od', n. split; [exact Hp|split; [apply child_report_cons; exact Hr|exact Hl]].
      + destruct (node_type_is nodes other is_router_or_coord) eqn:Et; simpl.
        * destruct (child_reports_inner k other (d_neighbors od) acc) as [I1 [I2 I3]].
          set (acc' := fold_left _ (d_neighbors od) acc) in *.
          assert (Hacc' : fst acc' = None -> snd acc' = -1).
          { destruct I3 as [->|[n [_ [_ [_ ->]]]]]; [exact Hacc|discriminate]. }
          destruct (IH acc' Hacc') as [H1 [H2 [H3 H4]]].
          split; [|split; [lia|split; [exact H3|]]].
          -- intros q od' n [[Hin|Hin] [Hq [Hqt [Hn [Hk Hr]]]]].
             ++ injection Hin as <- <-. specialize (I1 n Hn Hk Hr). lia.
             ++ apply (H1 q od' n). split; [exact Hin|auto].
          -- destruct H4 as [H4|[p [od' [n [Hp [Hr Hl]]]]]].
             ++ rewrite H4. destruct I3 as [I3|[n [Hn [Hk [Hr Heq]]]]]; [left; exact I3|].
                right. exists other, od, n. rewrite Heq. simpl.
                split; [reflexivity|]. split; [|reflexivity].
                split; [left; reflexivity|]. split; [exact Eo|]. split; [exact Et|]. auto.
             ++ right. exists p, od', n. split; [exact Hp|split; [apply child_report_cons; exact Hr|exact Hl]].
        * destruct (IH acc Hacc) as [H1 [H2 [H3 H4]]]. split; [|split; [exact H2|split; [exact H3|]]].
          -- intros q od' n [[Hin|Hin] [Hq [Hqt Hrest]]].
             ++ injection Hin as <- <-. rewrite Hqt in Et. discriminate.
             ++ apply (H1 q od' n). split; [exact Hin|auto].
          -- destruct H4 as [H4|[p [od' [n [Hp [Hr Hl]]]]]]; [left; exact H4|].
             right. exists p, od', n. split; [exact Hp|split; [apply child_report_cons; exact Hr|exact Hl]]. }
  destruct (Hgen devices (None, -1) (fun _ => eq_refl)) as [H1 [_ [H3 H4]]].
  split; [exact H1|]. split; [exact H3|].
  intros p Hp. destruct H4 as [H4|[p' [od [n [Hp' [Hr Hl]]]]]].
  - rewrite H4 in Hp. discriminate.
  - rewrite Hp in Hp'. inversion Hp'; subst. eauto.
Qed.

Lemma hierarchy_keys_nodup data h :
  build_hierarchy data = Some h ->
  NoDup (map fst (h_nodes h)) /\ NoDup (map fst (h_devices h)).
Proof.
  unfold build_hierarchy. destruct (find_coordinator _); [|discriminate].
  intros Hh. inversion Hh; subst; simpl.
  split; apply (dict_of_NoDup _ _ _ string_eqb_spec').
Qed.
Lemma next_hop_lqi_spec ns nh t :
  (next_hop_lqi ns nh t = 0 /\ Forall (fun n => hop_match nh t n = false) ns) \/
  exists pre n post, ns = pre ++ n :: post /\ Forall (fun n => hop_match nh t n = false) pre /\
    hop_match nh t n = true /\ next_hop_lqi ns nh t = link_lqi (n_lqi n).
Proof.
  induction ns as [|n r IH]; simpl; [left; auto|].
  fold (hop_match nh t n). destruct (hop_match nh t n) eqn:E.
  - right. exists [], n, r. split; [reflexivity|]. split; [constructor|]. auto.
  - destruct IH as [[H1 H2]|[pre [n' [post [H1 [H2 [H3 H4]]]]]]].
    + left. split; [exact H1|constructor; assumption].
    + right. exists (n :: pre), n', post. rewrite H1.
      split; [reflexivity|]. split; [constructor; assumption|]. split; [exact H3|].
      rewrite <- H1. exact H4.
Qed.

Lemma scan_routes_spec nodes idx cid ns rs t l :
  scan_routes nodes idx cid ns rs = Some (t, l) ->
  exists r nh, In r rs /\ route_usable r = true /\ nwk_to_int (r_dest_nwk r) = Some 0 /\
    nwk_to_int (r_next_hop r) = Some nh /\
    (if nh =? 0 then t = cid else dict_get jv_eqb (JInt nh) idx = Some t) /\
    l = next_hop_lqi ns nh t.
Proof.
  induction rs as [|r rs IH]; simpl; [discriminate|].
  intros H.
  assert (Hn : scan_routes nodes idx cid ns rs = Some (t, l) ->
    exists r' nh, In r' (r :: rs) /\ route_usable r' = true /\ nwk_to_int (r_dest_nwk r') = Some 0 /\
      nwk_to_int (r_next_hop r') = Some nh /\
      (if nh =? 0 then t = cid else dict_get jv_eqb (JInt nh) idx = Some t) /\
      l = next_hop_lqi ns nh t).
  { intros H'. destruct (IH H') as [r' [nh Hr]]. exists r', nh. simpl. tauto. }
  destruct (route_usable r) eqn:Eu; [|exact (Hn H)].
  destruct (nwk_to_int (r_dest_nwk r)) as [[|p|p]|] eqn:Ed; try exact (Hn H).
  destruct (nwk_to_int (r_next_hop r)) as [nh|] eqn:En; [|exact (Hn H)].
  destruct (nh =? 0) eqn:Ez.
  - destruct (str_truthy cid && dict_mem String.eqb cid nodes); [|exact (Hn H)].
    inversion H; subst. exists r, nh. rewrite Ez. split; [left; reflexivity|]. repeat split; auto.
  - destruct (dict_get jv_eqb (JInt nh) idx) as [t'|] eqn:Ei; [|exact (Hn H)].
    destruct (str_truthy t' && dict_mem String.eqb t' nodes); [|exact (Hn H)].
    inversion H; subst. exists r, nh. rewrite Ez. split; [left; reflexivity|]. repeat split; auto.
Qed.

Lemma own_parent_spec nodes ns p l :
  own_parent nodes ns = Some (p, l) ->
  exists n, In n ns /\ n_rel n = Parent /\ n_ieee n = p /\ l = link_lqi (n_lqi n).
Proof.
  induction ns as [|n r IH]; simpl; [discriminate|].
  destruct (rel_eqb (n_rel n) Parent && str_truthy (n_ieee n) && dict_mem String.eqb (n_ieee n) nodes) eqn:E.
  - intros H. inversion H; subst. exists n. split; [left; reflexivity|].
    apply andb_true_iff in E. destruct E as [E _]. apply andb_true_iff in E. destruct E as [E _].
    apply rel_eqb_spec in E. auto.
  - intros H. destruct (IH H) as [n' Hn']. exists n'. simpl. tauto.
Qed.

Lemma fold_pick {B} (f : option string * Z -> B -> option string * Z) (g : B -> option string * Z)
    (l : list B) acc :
  (forall acc x, f acc x = acc \/ f acc x = g x) ->
  fold_left f l acc = acc \/ exists x, In x l /\ fold_left f l acc = g x.
Proof.
  intros Hf. revert acc. induction l as [|x r IH]; intros acc; simpl; [left; reflexivity|].
  destruct (IH (f acc x)) as [H|[y [Hy H]]].
  - rewrite H. destruct (Hf acc x) as [E|E]; rewrite E; [left; reflexivity|right; exists x; auto].
  - right. exists y. auto.
Qed.

Lemma own_best_neighbor_spec nodes ty ns p :
  fst (own_best_neighbor nodes ty ns) = Some p ->
  exists n, In n ns /\ n_ieee n = p /\ snd (own_best_neighbor nodes ty ns) = link_lqi (n_lqi n).
Proof.
  unfold own_best_neighbor.
  match goal with |- context [fold_left ?f ns ?a] =>
    destruct (fold_pick f (fun n => (Some (n_ieee n), link_lqi (n_lqi n))) ns a) as [E|[n [Hn E]]] end.
  - intros acc n. cbv beta zeta.
    destruct (negb (str_truthy (n_ieee n) && dict_mem String.eqb (n_ieee n) nodes)); [left; reflexivity|].
    destruct (dtype_eqb ty EndDevice);
      [destruct (node_type_is nodes (n_ieee n) is_router_or_coord && (snd acc <? link_lqi (n_lqi n)))
      |destruct (snd acc <? link_lqi (n_lqi n))]; auto.
  - rewrite E. simpl. discriminate.
  - rewrite E. simpl. intros H. inversion H; subst. exists n. auto.
Qed.

(** Where each primary link comes from, tier by tier. *)
Definition link_origin (nodes : list (string * node)) (devices : list (string * device))
    (cid k : string) (v : plink) : Prop :=
  match pl_source_type v with
  | SRoute =>
      exists d r nh, In (k, d) devices /\ In r (d_routes d) /\ route_usable r = true /\
        nwk_to_int (r_dest_nwk r) = Some 0 /\ nwk_to_int (r_next_hop r) = Some nh /\
        (if nh =? 0 then pl_target v = cid
         else dict_get jv_eqb (JInt nh) (nwk_index devices) = Some (pl_target v)) /\
        pl_lqi v = Some (next_hop_lqi (d_neighbors d) nh (pl_target v))
  | SParent =>
      (exists d n, In (k, d) devices /\ In n (d_neighbors d) /\ n_rel n = Parent /\
         n_ieee n = pl_target v /\ pl_lqi v = Some (link_lqi (n_lqi n))) \/
      (exists od n, child_report nodes devices k (pl_target v) od n /\
         pl_lqi v = Some (link_lqi (n_lqi n)))
  | SNeighbor =>
      exists d n, In (k, d) devices /\ In n (d_neighbors d) /\ n_ieee n = pl_target v /\
        pl_lqi v = Some (link_lqi (n_lqi n)) /\ 0 <= link_lqi (n_lqi n)
  | SFallback => pl_target v = cid /\ pl_lqi v = None
  end.

Lemma opt_truthy_some o p : opt_truthy o = Some p -> o = Some p.
Proof. unfold opt_truthy. destruct o as [s|]; [destruct (str_truthy s)|]; congruence. Qed.

Lemma primary_links_origin h k v :
  In (k, v) (primary_links h) ->
  link_origin (h_nodes h) (h_devices h) (node_id (h_coordinator h)) k v.
Proof.
  unfold primary_links.
  rewrite fallback_tier_g, neighbor_tier_g, child_tier_g, parent_tier_g, route_tier_g.
  set (nodes := h_nodes h). set (devices := h_devices h). set (cid := node_id (h_coordinator h)).
  set (P := link_origin nodes devices cid).
  revert k v.
  apply (gfold_forall _ _ P); [apply (gfold_forall _ _ P); [apply (gfold_forall _ _ P); [apply (gfold_forall _ _ P); [apply (gfold_forall _ _ P); [intros _ _ []|]|]|]|]|].
  - intros k d cur v Hin. unfold g_route.
    destruct (d_routes d) as [|r rs] eqn:Er; [discriminate|].
    destruct (dict_get String.eqb k _) as [nd|]; [|discriminate].
    destruct (node_is_coordinator nd); [discriminate|].
    destruct (scan_routes _ _ _ _ (r :: rs)) as [[t lq]|] eqn:Es; [|discriminate].
    intros E; inversion E; subst v. clear E.
    destruct (scan_routes_spec _ _ _ _ _ _ _ Es) as [r' [nh [H1 [H2 [H3 [H4 [H5 H6]]]]]]].
    unfold P, link_origin; simpl. exists d, r', nh. rewrite Er. subst lq. auto 10.
  - intros k d cur v Hin. unfold g_parent.
    destruct cur; [discriminate|]. destruct (dict_get String.eqb k _) as [nd0|]; [|discriminate].
    destruct (own_parent _ _) as [[p lq]|] eqn:Eo; [|discriminate].
    intros E; inversion E; subst v. clear E.
    destruct (own_parent_spec _ _ _ _ Eo) as [n [H1 [H2 [H3 H4]]]].
    unfold P, link_origin; simpl. left. exists d, n. subst lq. auto 10.
  - intros k nd cur v _. unfold g_child.
    destruct cur; [discriminate|]. destruct (node_is_coordinator nd); [discriminate|].
    destruct (opt_truthy _) as [p|] eqn:Eo; [|discriminate].
    intros E; inversion E; subst v. clear E.
    apply opt_truthy_some in Eo.
    destruct (child_reports_spec nodes devices k) as [_ [_ S3]].
    destruct (S3 p Eo) as [od [n [Hr Hl]]].
    unfold P, link_origin; simpl. right. exists od, n. rewrite Hl. auto.
  - intros k d cur v Hin. unfold g_neighbor.
    destruct cur; [discriminate|]. destruct (dict_get String.eqb k _) as [nd|]; [|discriminate].
    destruct (node_is_coordinator nd); [discriminate|].
    destruct (opt_truthy (fst (own_best_neighbor _ (node_type nd) (d_neighbors d)))) as [p|] eqn:Eo;
      [|discriminate].
    intros E; inversion E; subst v. clear E.
    apply opt_truthy_some in Eo.
    destruct (own_best_neighbor_spec _ _ _ _ Eo) as [n [H1 [H2 H3]]].
    assert (Hz : 0 <= snd (own_best_neighbor nodes (node_type nd) (d_neighbors d))).
    { apply own_best_neighbor_nonneg. rewrite Eo. discriminate. }
    unfold P, link_origin; simpl. exists d, n. rewrite <- H3. auto 10.
  - intros k nd cur v _. unfold g_fallback.
    destruct cur; [discriminate|]. destruct (String.eqb k _); [discriminate|].
    intros E; inversion E; subst v. unfold P, link_origin; simpl. auto.
Qed.


Lemma hierarchy_devices_in devs h k d :
  build_hierarchy (export_of devs) = Some h -> In (k, d) (h_devices h) -> In d devs.
Proof.
  intros Hh. unfold build_hierarchy in Hh.
  destruct (find_coordinator _); [|discriminate]. inversion Hh; subst h; clear Hh. simpl.
  revert k d. apply (dict_of_forall _ _ _ string_eqb_spec' (fun _ d => In d devs)).
  intros k d Hin. apply in_map_iff in Hin. destruct Hin as [d' [E Hd']]. inversion E; subst. exact Hd'.
Qed.

Lemma edge_lqi_link_lqi v : edge_lqi v = link_lqi v.
Proof. unfold edge_lqi, link_lqi. destruct (jtruthy v); reflexivity. Qed.


(** ** Path walk *)

Definition unvisited (links : links_map) (visited : list string) : nat :=
  List.length (filter (fun k => negb (mem_str k visited)) (map fst links)).

Lemma filter_count_drop (c : string) (vis : list string) (l : list string) :
  In c l -> mem_str c vis = false ->
  (S (List.length (filter (fun k => negb (mem_str k (c :: vis))) l))
    <= List.length (filter (fun k => negb (mem_str k vis)) l))%nat.
Proof.
  intros Hin Hc. induction l as [|x r IH]; [destruct Hin|].
  assert (Hmono : forall l', (List.length (filter (fun k => negb (mem_str k (c :: vis))) l')
                             <= List.length (filter (fun k => negb (mem_str k vis)) l'))%nat).
  { clear IH Hin. induction l' as [|y r' IH']; simpl; [constructor|].
    unfold mem_str in *; simpl in IH' |- *.
    destruct (String.eqb y c); destruct (existsb (String.eqb y) vis); simpl; lia. }
  assert (Hx : mem_str x (c :: vis) = String.eqb x c || mem_str x vis) by reflexivity.
  cbn [filter List.length]. rewrite Hx.
  destruct Hin as [<-|Hin].
  - rewrite String.eqb_refl, Hc. cbn [orb negb List.length]. specialize (Hmono r). lia.
  - specialize (IH Hin).
    destruct (String.eqb x c); destruct (mem_str x vis); cbn [orb negb List.length]; lia.
Qed.

Lemma walk_spec nodes links cid : forall fuel visited current,
  (unvisited links visited < fuel)%nat ->
  exists p, walk fuel nodes links cid visited current = Some p /\
    (List.length p <= unvisited links visited)%nat /\
    NoDup (removelast (current :: map hop_id p)) /\
    (forall x, In x (removelast (current :: map hop_id p)) -> ~ In x visited).
Proof.
  induction fuel as [|f IH]; intros visited current Hf; [lia|].
  simpl walk.
  destruct (str_truthy current && negb (String.eqb current cid) && negb (mem_str current visited))
    eqn:Ec.
  2:{ exists []. simpl. split; [reflexivity|]. split; [lia|]. split; [constructor|intros _ []]. }
  destruct (dict_get String.eqb current links) as [l|] eqn:El.
  2:{ exists []. simpl. split; [reflexivity|]. split; [lia|]. split; [constructor|intros _ []]. }
  apply andb_true_iff in Ec. destruct Ec as [_ Hv]. apply negb_true_iff in Hv.
  assert (Hk : In current (map fst links)).
  { apply (in_map fst _ (current, l)). exact (dict_get_in _ _ _ string_eqb_spec' _ _ _ El). }
  pose proof (filter_count_drop current visited _ Hk Hv) as Hd.
  fold (unvisited links (current :: visited)) in Hd. fold (unvisited links visited) in Hd.
  destruct (IH (current :: visited) (pl_target l) ltac:(lia)) as [p [Hw [Hl [Hn Hx]]]].
  rewrite Hw. simpl option_map.
  eexists. split; [reflexivity|]. simpl List.length. split; [lia|].
  assert (Hnv : ~ In current visited).
  { intros H. apply (mem_str_In current visited) in H. congruence. }
  change (removelast (current :: map hop_id (mkHop (pl_target l) (pl_lqi l)
            (option_map node_type (dict_get String.eqb (pl_target l) nodes)) :: p)))
    with (current :: removelast (pl_target l :: map hop_id p)).
  split.
  - constructor; [|exact Hn]. intros H. apply (Hx current H). left. reflexivity.
  - intros x [<-|H]; [exact Hnv|]. intros Hvx. apply (Hx x H). right. exact Hvx.
Qed.

Lemma unvisited_nil links : unvisited links [] = List.length links.
Proof.
  unfold unvisited. rewrite <- (length_map fst links).
  unfold mem_str. induction (map fst links) as [|k r IH]; simpl in *; congruence.
Qed.

(** ** Children lists, parents, primary links, paths, node entries *)

(** The order [list.sort] puts a children list in: [child_key] ascending. *)
Definition key_le (a b : Z * Z) : Prop :=
  fst a < fst b \/ (fst a = fst b /\ snd a <= snd b).

Lemma key_ltb_false_le a b : key_ltb a b = false -> key_le b a.
Proof.
  unfold key_ltb, key_le. intros H. apply orb_false_iff in H. destruct H as [H1 H2].
  apply Z.ltb_ge in H1. apply andb_false_iff in H2.
  destruct H2 as [H2|H2]; [apply Z.eqb_neq in H2|apply Z.ltb_ge in H2]; lia.
Qed.

Lemma key_ltb_true_le a b : key_ltb a b = true -> key_le a b.
Proof.
  unfold key_ltb, key_le. intros H. apply orb_true_iff in H.
  destruct H as [H|H]; [apply Z.ltb_lt in H; lia|].
  apply andb_true_iff in H. destruct H as [H1 H2]. apply Z.eqb_eq in H1. apply Z.ltb_lt in H2. lia.
Qed.

Lemma key_le_trans a b c : key_le a b -> key_le b c -> key_le a c.
Proof. unfold key_le. lia. Qed.

Lemma insert_stable_sorted {A} (key : A -> Z * Z) x l :
  Sorted (fun a b => key_le (key a) (key b)) l ->
  Sorted (fun a b => key_le (key a) (key b)) (insert_stable key x l).
Proof.
  induction l as [|y r IH]; intros Hs; simpl; [repeat constructor|].
  destruct (key_ltb (key x) (key y)) eqn:E.
  - constructor; [exact Hs|]. constructor. apply key_ltb_true_le. exact E.
  - apply Sorted_inv in Hs. destruct Hs as [Hr Hh].
    constructor; [exact (IH Hr)|].
    destruct r as [|z r']; simpl.
    + constructor. apply key_ltb_false_le. exact E.
    + destruct (key_ltb (key x) (key z)); constructor.
      * apply key_ltb_false_le. exact E.
      * inversion Hh; assumption.
Qed.

Lemma stable_sort_sorted {A} (key : A -> Z * Z) l :
  StronglySorted (fun a b => key_le (key a) (key b)) (stable_sort key l).
Proof.
  apply Sorted_StronglySorted; [intros a b c; apply key_le_trans|].
  unfold stable_sort.
  assert (Hgen : forall acc, Sorted (fun a b => key_le (key a) (key b)) acc ->
    Sorted (fun a b => key_le (key a) (key b)) (fold_left (fun acc x => insert_stable key x acc) l acc)).
  { induction l as [|x r IH]; intros acc H; simpl; [exact H|]. apply IH. apply insert_stable_sorted. exact H. }
  apply Hgen. constructor.
Qed.

(** Every entry of every children list. *)
Definition children_all (P : child_entry -> Prop) (ch : children_map) : Prop :=
  forall p cs c, In (p, cs) ch -> In c cs -> P c.

Lemma children_all_add (P : child_entry -> Prop) p x ch :
  children_all P ch -> P x -> children_all P (append_child p x ch).
Proof.
  intros Hok Hx p' cs' c Hin Hc.
  destruct (append_child_in _ _ _ _ _ _ Hin Hc) as [[_ ->]|[cs0 [H1 H2]]]; [exact Hx|].
  exact (Hok _ _ _ H1 H2).
Qed.

Definition lqi_entry_ok (c : child_entry) : Prop :=
  match snd c with Some l => 0 < l | None => True end.

Lemma lqi_or_none_ok x l : lqi_entry_ok (x, lqi_or_none l).
Proof. unfold lqi_entry_ok, lqi_or_none; simpl. destruct (0 <? l) eqn:E; [apply Z.ltb_lt in E|]; exact I || exact E. Qed.

Lemma find_first {A} (f : A -> bool) (l : list A) x :
  find f l = Some x ->
  exists pre post, l = pre ++ x :: post /\ f x = true /\ Forall (fun y => f y = false) pre.
Proof.
  induction l as [|y r IH]; simpl; [discriminate|].
  destruct (f y) eqn:E.
  - intros H. inversion H; subst. exists [], r. auto.
  - intros H. destruct (IH H) as [pre [post [-> [Hx Hpre]]]].
    exists (y :: pre), post. split; [reflexivity|]. split; [exact Hx|]. constructor; assumption.
Qed.

Lemma find_map' {A B} (f : B -> bool) (g : A -> B) (l : list A) :
  find f (map g l) = option_map g (find (fun x => f (g x)) l).
Proof. induction l as [|x r IH]; simpl; [reflexivity|]. destruct (f (g x)); auto. Qed.

Lemma dict_get_key_in {V} k v (m : list (string * V)) :
  dict_get String.eqb k m = Some v -> In k (map fst m).
Proof.
  intros H. apply (in_map fst _ (k, v)). exact (dict_get_in _ _ _ string_eqb_spec' _ _ _ H).
Qed.

Lemma dict_mem_key_in {V} k (m : list (string * V)) :
  dict_mem String.eqb k m = true -> In k (map fst m).
Proof.
  unfold dict_mem. destruct (dict_get String.eqb k m) as [v|] eqn:E; [|discriminate].
  intros _. exact (dict_get_key_in _ _ _ E).
Qed.

Lemma node_type_is_in nodes k f :
  node_type_is nodes k f = true -> In k (map fst nodes).
Proof.
  unfold node_type_is. destruct (dict_get String.eqb k nodes) as [n|] eqn:E; [|discriminate].
  intros _. exact (dict_get_key_in _ _ _ E).
Qed.

Lemma scan_routes_mem nodes idx cid ns rs t l :
  scan_routes nodes idx cid ns rs = Some (t, l) -> dict_mem String.eqb t nodes = true.
Proof.
  induction rs as [|r rest IH]; simpl; [discriminate|].
  destruct (route_usable r); [|exact IH].
  destruct (nwk_to_int (r_dest_nwk r)) as [[|p|p]|]; try exact IH.
  destruct (nwk_to_int (r_next_hop r)) as [nh|]; [|exact IH].
  destruct (if nh =? 0 then Some cid else dict_get jv_eqb (JInt nh) idx) as [t'|]; [|exact IH].
  destruct (str_truthy t' && dict_mem String.eqb t' nodes) eqn:E; [|exact IH].
  intros H. inversion H; subst. apply andb_true_iff in E. tauto.
Qed.

Lemma own_parent_mem nodes ns p l :
  own_parent nodes ns = Some (p, l) -> dict_mem String.eqb p nodes = true.
Proof.
  induction ns as [|n r IH]; simpl; [discriminate|].
  destruct (rel_eqb (n_rel n) Parent && str_truthy (n_ieee n) && dict_mem String.eqb (n_ieee n) nodes) eqn:E;
    [|exact IH].
  intros H. inversion H; subst. apply andb_true_iff in E. tauto.
Qed.

Lemma own_best_neighbor_mem nodes t ns p :
  fst (own_best_neighbor nodes t ns) = Some p ->
  dict_mem String.eqb p nodes = true /\
  (t = EndDevice -> node_type_is nodes p is_router_or_coord = true).
Proof.
  unfold own_best_neighbor.
  assert (Hgen : forall acc : option string * Z,
    (forall p, fst acc = Some p -> dict_mem String.eqb p nodes = true /\
       (t = EndDevice -> node_type_is nodes p is_router_or_coord = true)) ->
    forall p, fst (fold_left (fun acc n =>
       let ni := n_ieee n in
       if negb (str_truthy ni && dict_mem String.eqb ni nodes) then acc
       else let l := link_lqi (n_lqi n) in
            if dtype_eqb t EndDevice then
              if node_type_is nodes ni is_router_or_coord && (snd acc <? l)
              then (Some ni, l) else acc
            else if snd acc <? l then (Some ni, l) else acc) ns acc) = Some p ->
    dict_mem String.eqb p nodes = true /\
    (t = EndDevice -> node_type_is nodes p is_router_or_coord = true)).
  { induction ns as [|n r IH]; simpl; intros acc Hacc; [exact Hacc|].
    apply IH. intros q.
    destruct (str_truthy (n_ieee n) && dict_mem String.eqb (n_ieee n) nodes) eqn:Em; simpl;
      [|exact (Hacc q)].
    apply andb_true_iff in Em. destruct Em as [_ Em].
    destruct (dtype_eqb t EndDevice) eqn:Et.
    - destruct (node_type_is nodes (n_ieee n) is_router_or_coord) eqn:En; simpl; [|exact (Hacc q)].
      destruct (snd acc <? link_lqi (n_lqi n)); [|exact (Hacc q)].
      simpl. intros H; inversion H; subst. auto.
    - destruct (snd acc <? link_lqi (n_lqi n)); [|exact (Hacc q)].
      simpl. intros H; inversion H; subst. split; [exact Em|].
      intros ->. discriminate. }
  apply Hgen. simpl. discriminate.
Qed.

Lemma child_reports_router nodes devices k p :
  fst (child_reports nodes devices k) = Some p -> node_type_is nodes p is_router_or_coord = true.
Proof.
  intros H. destruct (child_reports_spec nodes devices k) as [_ [_ S3]].
  destruct (S3 p H) as [od [n [[_ [_ [Ht _]]] _]]]. exact Ht.
Qed.

Lemma hierarchy_coordinator_in data h :
  build_hierarchy data = Some h -> In (node_id (h_coordinator h)) (map fst (h_nodes h)).
Proof.
  unfold build_hierarchy. unfold find_coordinator.
  destruct (find _ _) as [c|] eqn:F; [|discriminate].
  intros Hh; inversion Hh; subst h; clear Hh; simpl.
  apply find_some in F. destruct F as [Hc _].
  destruct (in_values_in _ _ Hc) as [k Hk].
  assert (Hkk : k = node_id c).
  { refine (dict_of_forall _ _ _ string_eqb_spec' (fun k n => k = node_id n) _ _ k c Hk).
    intros k' n' Hin. apply in_map_iff in Hin. destruct Hin as [n'' [E _]]. inversion E; reflexivity. }
  subst k. apply (in_map fst _ _ Hk).
Qed.

Lemma gfold_NoDup {A} (g : string -> A -> option plink -> option plink) (l : list (string * A)) m :
  NoDup (map fst m) -> NoDup (map fst (fold_left (gstep g) l m)).
Proof.
  revert m. induction l as [|ka r IH]; intros m Hm; simpl; [exact Hm|].
  apply IH. unfold gstep. destruct (g _ _ _); [|exact Hm].
  apply (dict_set_NoDup _ _ _ string_eqb_spec'). exact Hm.
Qed.

(** Keys and targets of the PrimaryLink map, and the Router/Coordinator
    target of an EndDevice's neighbor-sourced link. *)
Definition link_ok (nodes : list (string * node)) (k : string) (v : plink) : Prop :=
  In k (map fst nodes) /\ In (pl_target v) (map fst nodes) /\
  (node_type_is nodes k (fun t => dtype_eqb t EndDevice) = true -> pl_source_type v = SNeighbor ->
   node_type_is nodes (pl_target v) is_router_or_coord = true).

Lemma primary_links_ok data h :
  build_hierarchy data = Some h ->
  forall k v, In (k, v) (primary_links h) -> link_ok (h_nodes h) k v.
Proof.
  intros Hh. pose proof (hierarchy_coordinator_in data h Hh) as Hcid.
  unfold primary_links.
  rewrite fallback_tier_g, neighbor_tier_g, child_tier_g, parent_tier_g, route_tier_g.
  set (nodes := h_nodes h) in *.
  apply (gfold_forall _ _ (link_ok nodes)); [apply (gfold_forall _ _ (link_ok nodes)); [apply (gfold_forall _ _ (link_ok nodes)); [apply (gfold_forall _ _ (link_ok nodes)); [apply (gfold_forall _ _ (link_ok nodes)); [intros _ _ []|]|]|]|]|].
  - intros k d cur v _. unfold g_route.
    destruct (d_routes d) as [|r rs]; [discriminate|].
    destruct (dict_get String.eqb k nodes) as [nd|] eqn:En; [|discriminate].
    destruct (node_is_coordinator nd); [discriminate|].
    destruct (scan_routes _ _ _ _ (r :: rs)) as [[t lq]|] eqn:Es; [|discriminate].
    intros E; inversion E; subst. split; [exact (dict_get_key_in _ _ _ En)|].
    split; [|discriminate]. apply dict_mem_key_in. exact (scan_routes_mem _ _ _ _ _ _ _ Es).
  - intros k d cur v _. unfold g_parent.
    destruct cur; [discriminate|]. destruct (dict_get String.eqb k nodes) eqn:En; [|discriminate].
    destruct (own_parent _ _) as [[p lq]|] eqn:Eo; [|discriminate].
    intros E; inversion E; subst. split; [exact (dict_get_key_in _ _ _ En)|].
    split; [|discriminate]. apply dict_mem_key_in. exact (own_parent_mem _ _ _ _ Eo).
  - intros k nd cur v Hin. unfold g_child.
    destruct cur; [discriminate|]. destruct (node_is_coordinator nd); [discriminate|].
    destruct (fst (child_reports nodes (h_devices h) k)) as [p|] eqn:Ec; [|discriminate].
    unfold opt_truthy. destruct (str_truthy p); [|discriminate].
    intros E; inversion E; subst. split; [exact (in_map fst _ _ Hin)|].
    split; [|discriminate]. exact (node_type_is_in _ _ _ (child_reports_router _ _ _ _ Ec)).
  - intros k d cur v _. unfold g_neighbor.
    destruct cur; [discriminate|]. destruct (dict_get String.eqb k nodes) as [nd|] eqn:En; [|discriminate].
    destruct (node_is_coordinator nd); [discriminate|].
    destruct (fst (own_best_neighbor nodes (node_type nd) (d_neighbors d))) as [p|] eqn:Eo;
      [|discriminate].
    unfold opt_truthy. destruct (str_truthy p); [|discriminate].
    intros E; inversion E; subst. simpl.
    destruct (own_best_neighbor_mem _ _ _ _ Eo) as [Hm He].
    split; [exact (dict_get_key_in _ _ _ En)|]. split; [exact (dict_mem_key_in _ _ Hm)|].
    intros Ht _. apply He. unfold node_type_is in Ht. rewrite En in Ht.
    destruct (node_type nd); simpl in Ht; congruence.
  - intros k nd cur v Hin. unfold g_fallback.
    destruct cur; [discriminate|]. destruct (String.eqb k _); [discriminate|].
    intros E; inversion E; subst. split; [exact (in_map fst _ _ Hin)|].
    split; [exact Hcid|discriminate].
Qed.

Fixpoint follows (nodes : list (string * node)) (links : links_map) (cur : string) (p : list hop)
  : Prop :=
  match p with
  | [] => True
  | h :: r => exists l, dict_get String.eqb cur links = Some l /\
      h = mkHop (pl_target l) (pl_lqi l) (option_map node_type (dict_get String.eqb (pl_target l) nodes)) /\
      follows nodes links (pl_target l) r
  end.

Definition walk_stop (links : links_map) (cid : string) (before : list string) (e : string) : Prop :=
  e = EmptyString \/ e = cid \/ dict_get String.eqb e links = None \/ In e before.

Lemma last_cons {A} (a : A) l d : last (a :: l) d = last l a.
Proof.
  revert a d. induction l as [|b r IH]; intros a d; [reflexivity|].
  change (last (b :: r) d = last (b :: r) a). rewrite (IH b d), (IH b a). reflexivity.
Qed.

Lemma walk_follows nodes links cid : forall fuel visited current p,
  walk fuel nodes links cid visited current = Some p ->
  follows nodes links current p /\
  walk_stop links cid (visited ++ removelast (current :: map hop_id p))
    (last (map hop_id p) current).
Proof.
  induction fuel as [|f IH]; intros visited current p Hw; simpl in Hw; [discriminate|].
  destruct (str_truthy current && negb (String.eqb current cid) && negb (mem_str current visited))
    eqn:Ec.
  - destruct (dict_get String.eqb current links) as [l|] eqn:El.
    + destruct (walk f nodes links cid (current :: visited) (pl_target l)) as [p'|] eqn:Hw';
        simpl in Hw; [|discriminate].
      inversion Hw; subst p; clear Hw.
      destruct (IH _ _ _ Hw') as [Hf Hs].
      split; [exists l; auto|].
      change (map hop_id (_ :: p')) with (pl_target l :: map hop_id p').
      rewrite last_cons. change (removelast (current :: pl_target l :: map hop_id p'))
        with (current :: removelast (pl_target l :: map hop_id p')).
      unfold walk_stop in *. destruct Hs as [H|[H|[H|H]]]; auto.
      right; right; right. simpl in H. rewrite in_app_iff in *. simpl. tauto.
    + inversion Hw; subst. split; [exact I|]. simpl. right; right; left. exact El.
  - inversion Hw; subst. split; [exact I|]. simpl.
    unfold walk_stop. rewrite app_nil_r.
    destruct (String.eqb_spec current EmptyString) as [Hn|Hn]; [left; exact Hn|].
    destruct (String.eqb_spec current cid) as [Hc|Hc]; [right; left; exact Hc|].
    right; right; right. unfold str_truthy in Ec.
    destruct (mem_str current visited) eqn:Em.
    + unfold mem_str in Em. apply existsb_exists in Em. destruct Em as [x [Hx E]].
      apply String.eqb_eq in E. subst. exact Hx.
    + apply String.eqb_neq in Hn. apply String.eqb_neq in Hc. rewrite Hn in Ec. simpl in Ec. discriminate.
Qed.

Definition same_pair (a b c d : string) : Prop :=
  (a = c /\ b = d) \/ (a = d /\ b = c).

Lemma link_key_cases a b : link_key a b = (a, b) \/ link_key a b = (b, a).
Proof. unfold link_key. destruct (String.ltb b a); auto. Qed.

Lemma link_key_same a b c d : link_key a b = link_key c d <-> same_pair a b c d.
Proof.
  unfold same_pair. split.
  - intros H. destruct (link_key_cases a b) as [E1|E1], (link_key_cases c d) as [E2|E2];
      rewrite E1, E2 in H; inversion H; subst; auto.
  - intros [[-> ->]|[-> ->]]; [reflexivity|apply link_key_sym].
Qed.

Definition skey (s : slink) : string * string := link_key (sl_source s) (sl_target s).

Definition sib_ok (d3 : list d3node) (links : links_map) (s : slink) : Prop :=
  (forall k l, In (k, l) links -> ~ same_pair (pl_target l) k (sl_source s) (sl_target s)) /\
  (exists dn, In dn d3 /\ dn_id dn = sl_source s /\ is_router_or_coord (dn_type dn) = true /\
     In (mkNentry (sl_target s) (sl_lqi s) Sibling) (dn_neighbors dn)) /\
  (exists dn, In dn d3 /\ dn_id dn = sl_target s /\ is_router_or_coord (dn_type dn) = true).

Definition sib_inv (d3 : list d3node) (links : links_map)
    (st : list (string * string) * list slink) : Prop :=
  map skey (snd st) = rev (fst st) /\ NoDup (fst st) /\ Forall (sib_ok d3 links) (snd st).

Lemma existsb_pair_false k l : existsb (pair_eqb k) l = false -> ~ In k l.
Proof.
  intros H Hin. assert (existsb (pair_eqb k) l = true) by
    (apply existsb_exists; exists k; split; [exact Hin|apply pair_eqb_spec; reflexivity]).
  congruence.
Qed.

Lemma sibling_inner d3 links dn nes st :
  In dn d3 -> is_router_or_coord (dn_type dn) = true ->
  (forall ne, In ne nes -> In ne (dn_neighbors dn)) ->
  sib_inv d3 links st ->
  sib_inv d3 links (fold_left (sibling_step (map dn_id (filter (fun n => is_router_or_coord (dn_type n)) d3)) links (dn_id dn)) nes st).
Proof.
  intros Hd Ht. revert st. induction nes as [|ne r IH]; intros st Hsub Hi; simpl; [exact Hi|].
  apply IH; [intros x Hx; apply Hsub; right; exact Hx|].
  destruct st as [added out]. unfold sibling_step.
  destruct (rel_eqb (ne_rel ne) Sibling && mem_str (ne_ieee ne) _) eqn:Ec; [|exact Hi].
  destruct (existsb _ links) eqn:Ep; [exact Hi|].
  destruct (existsb (pair_eqb _) added) eqn:Ea; [exact Hi|].
  unfold sib_inv in *. destruct Hi as [Hk [Hn Hf]]. simpl in *.
  apply andb_true_iff in Ec. destruct Ec as [Er Em].
  assert (Hrel : ne_rel ne = Sibling) by (destruct (ne_rel ne); simpl in Er; congruence).
  split; [|split].
  - rewrite map_app, Hk. reflexivity.
  - constructor; [exact (existsb_pair_false _ _ Ea)|exact Hn].
  - apply Forall_app. split; [exact Hf|]. constructor; [|constructor].
    split; [|split].
    + intros k l Hin Hs. apply link_key_same in Hs.
      assert (existsb (fun kl => pair_eqb (link_key (pl_target (snd kl)) (fst kl))
                (link_key (dn_id dn) (ne_ieee ne))) links = true).
      { apply existsb_exists. exists (k, l). split; [exact Hin|]. simpl.
        apply pair_eqb_spec. exact Hs. }
      congruence.
    + exists dn. simpl. split; [exact Hd|]. split; [reflexivity|]. split; [exact Ht|].
      rewrite <- Hrel. destruct ne; apply Hsub; left; reflexivity.
    + unfold mem_str in Em. apply existsb_exists in Em. destruct Em as [x [Hx Ex]].
      apply String.eqb_eq in Ex. subst x.
      apply in_map_iff in Hx. destruct Hx as [dn' [Hid Hin']]. apply filter_In in Hin'.
      exists dn'. simpl. tauto.
Qed.

Lemma sibling_links_inv (d3 : list d3node) (links : links_map) :
  NoDup (map skey (sibling_links d3 links)) /\ Forall (sib_ok d3 links) (sibling_links d3 links).
Proof.
  assert (Hinv : sib_inv d3 links (fold_left (fun st n =>
         if is_router_or_coord (dn_type n)
         then fold_left (sibling_step (map dn_id (filter (fun n => is_router_or_coord (dn_type n)) d3)) links (dn_id n)) (dn_neighbors n) st
         else st) d3 ([], []))).
  { assert (Hgen : forall l st, (forall x, In x l -> In x d3) -> sib_inv d3 links st ->
      sib_inv d3 links (fold_left (fun st n =>
         if is_router_or_coord (dn_type n)
         then fold_left (sibling_step (map dn_id (filter (fun n => is_router_or_coord (dn_type n)) d3)) links (dn_id n)) (dn_neighbors n) st
         else st) l st)).
    { induction l as [|n r IH]; intros st Hsub Hi; simpl; [exact Hi|].
      apply IH; [intros x Hx; apply Hsub; right; exact Hx|].
      destruct (is_router_or_coord (dn_type n)) eqn:Et; [|exact Hi].
      apply sibling_inner; auto. apply Hsub. left. reflexivity. }
    apply Hgen; [auto|]. split; [reflexivity|]. split; constructor. }
  unfold sibling_links. cbv zeta. revert Hinv.
  destruct (fold_left _ d3 _) as [added out]. unfold sib_inv. simpl.
  intros [Hk [Hn Hf]]. split; [|exact Hf].
  rewrite Hk. apply NoDup_rev. exact Hn.
Qed.

Lemma nl_lqi_none v :
  nl_lqi v = None <-> exists s, v = JStr s /\ s <> EmptyString /\ py_int 10 s = None.
Proof.
  unfold nl_lqi. destruct v as [|z|s]; simpl.
  - split; [discriminate|intros [s [E _]]; discriminate].
  - destruct (z =? 0); simpl; split; (discriminate || intros [s [E _]]; discriminate).
  - destruct (String.eqb_spec s EmptyString) as [E|E]; simpl.
    + split; [discriminate|intros [s' [E' [Hn _]]]; inversion E'; subst; contradiction].
    + split; [intros H; exists s; auto|intros [s' [E' [_ Hp]]]; inversion E'; subst; exact Hp].
Qed.

Lemma nl_lqi_some v z : nl_lqi v = Some z -> z = link_lqi v.
Proof.
  unfold nl_lqi, link_lqi. destruct (jtruthy v) eqn:Et; [|intros H; inversion H; reflexivity].
  destruct v as [|z'|s]; simpl; intros H.
  - simpl in Et. discriminate.
  - inversion H; reflexivity.
  - rewrite H. reflexivity.
Qed.

(** The running best of [upd_best] on one key. *)
Definition best_step (acc : option (string * Z)) (pl : string * Z) : option (string * Z) :=
  match acc with
  | Some (q, b) => if b <? snd pl then Some pl else acc
  | None => Some pl
  end.

Lemma upd_best_get k k' p l m :
  dict_get String.eqb k (upd_best k' p l m) =
  if String.eqb k k' then best_step (dict_get String.eqb k m) (p, l) else dict_get String.eqb k m.
Proof.
  unfold upd_best. destruct (String.eqb_spec k k') as [<-|Hne].
  - destruct (dict_get String.eqb k m) as [[q b]|] eqn:E; simpl.
    + destruct (b <? l); [|exact E].
      rewrite (dict_get_set _ _ _ string_eqb_spec'), String.eqb_refl. reflexivity.
    + rewrite (dict_get_set _ _ _ string_eqb_spec'), String.eqb_refl. reflexivity.
  - destruct (dict_get String.eqb k' m) as [[q b]|];
      [destruct (b <? l); [|reflexivity]|];
      rewrite (dict_get_set _ _ _ string_eqb_spec');
      destruct (String.eqb_spec k k'); congruence.
Qed.

(** The first candidate of highest lqi, as the strict [>] of [upd_best]
    keeps it. *)
Definition first_max (cands : list (string * Z)) (p : string) (l : Z) : Prop :=
  exists pre post, cands = pre ++ (p, l) :: post /\
    Forall (fun x => snd x < l) pre /\ Forall (fun x => snd x <= l) post.

Lemma best_fold_spec (cands : list (string * Z)) :
  match fold_left best_step cands None with
  | None => cands = []
  | Some (p, l) => first_max cands p l
  end.
Proof.
  induction cands as [|x r IH] using rev_ind; simpl; [reflexivity|].
  rewrite fold_left_app. simpl.
  destruct (fold_left best_step r None) as [[q b]|] eqn:E.
  - destruct IH as [pre [post [Hr [Hpre Hpost]]]]. simpl.
    destruct (b <? snd x) eqn:Eb.
    + apply Z.ltb_lt in Eb. destruct x as [p l]. exists (pre ++ (q, b) :: post), [].
      split; [rewrite Hr, <- app_assoc; reflexivity|]. split; [|constructor].
      simpl in Eb. apply Forall_app. split.
      * eapply Forall_impl; [|exact Hpre]. simpl. intros a Ha. lia.
      * constructor; [simpl; lia|]. eapply Forall_impl; [|exact Hpost]. simpl. intros a Ha. lia.
    + apply Z.ltb_ge in Eb. exists pre, (post ++ [x]).
      split; [rewrite Hr, <- app_assoc; reflexivity|]. split; [exact Hpre|].
      apply Forall_app. split; [exact Hpost|constructor; [exact Eb|constructor]].
  - subst r. simpl. destruct x as [p l]. exists [], []. split; [reflexivity|].
    split; constructor.
Qed.

(** The candidate parents of a Router [r], in the order [router_parents]
    reads them: its own [Parent] reports, and [Child] reports about it by a
    Router or Coordinator. *)
Definition router_cands (nodes : list (string * node)) (edges : list edge) (r : string)
  : list (string * Z) :=
  flat_map (fun e =>
     (if rel_eqb (e_rel e) Parent && node_type_is nodes (e_source e) (fun t => dtype_eqb t Router)
         && String.eqb (e_source e) r
      then [(e_target e, e_lqi e)] else []) ++
     (if rel_eqb (e_rel e) Child && node_type_is nodes (e_target e) (fun t => dtype_eqb t Router)
         && node_type_is nodes (e_source e) is_router_or_coord && String.eqb (e_target e) r
      then [(e_source e, e_lqi e)] else [])) edges.

Lemma router_parents_get nodes edges r :
  dict_get String.eqb r (router_parents nodes edges) = fold_left best_step (router_cands nodes edges r) None.
Proof.
  unfold router_parents, router_cands.
  change (@None (string * Z)) with (dict_get String.eqb r ([] : list (string * (string * Z)))).
  generalize ([] : list (string * (string * Z))).
  induction edges as [|e es IH]; intros m; simpl; [reflexivity|].
  rewrite IH, fold_left_app, fold_left_app. f_equal.
  destruct (rel_eqb (e_rel e) Parent && node_type_is nodes (e_source e) (fun t => dtype_eqb t Router)) eqn:E1;
  destruct (rel_eqb (e_rel e) Child && node_type_is nodes (e_target e) (fun t => dtype_eqb t Router)
            && node_type_is nodes (e_source e) is_router_or_coord) eqn:E2;
  rewrite ?upd_best_get;
  destruct (String.eqb_spec r (e_source e)); destruct (String.eqb_spec r (e_target e));
  rewrite ?(String.eqb_sym (e_source e) r), ?(String.eqb_sym (e_target e) r);
  repeat match goal with
  | H : r = _ |- _ => rewrite <- H; rewrite ?String.eqb_refl
  | H : r <> ?x |- _ => apply String.eqb_neq in H; rewrite ?H
  end; simpl; rewrite ?andb_false_r, ?andb_true_r; try reflexivity.
Qed.



Definition has_child (ch : children_map) (p : string) (c : child_entry) : Prop :=
  exists cs, dict_get String.eqb p ch = Some cs /\ In c cs.

Lemma append_child_get p' p x ch :
  dict_get String.eqb p' (append_child p x ch) =
  if String.eqb p' p
  then Some (match dict_get String.eqb p ch with Some cs => cs ++ [x] | None => [x] end)
  else dict_get String.eqb p' ch.
Proof.
  unfold append_child. destruct (dict_get String.eqb p ch);
    rewrite (dict_get_set _ _ _ string_eqb_spec'); reflexivity.
Qed.

Lemma has_child_keep ch p' c p x :
  has_child ch p' c -> has_child (append_child p x ch) p' c.
Proof.
  intros [cs [E H]]. unfold has_child. rewrite append_child_get.
  destruct (String.eqb_spec p' p) as [<-|]; [|eauto].
  rewrite E. eexists; split; [reflexivity|]. apply in_or_app. auto.
Qed.

Lemma has_child_new ch p x : has_child (append_child p x ch) p x.
Proof.
  unfold has_child. rewrite append_child_get, String.eqb_refl.
  destruct (dict_get String.eqb p ch); (eexists; split; [reflexivity|]);
    [apply in_or_app; right|]; left; reflexivity.
Qed.

Lemma fold_has_child {B} (f : children_map * list string -> B -> children_map * list string)
    (Hf : forall st b p c, has_child (fst st) p c -> has_child (fst (f st b)) p c)
    l st p c :
  has_child (fst st) p c -> has_child (fst (fold_left f l st)) p c.
Proof.
  revert st. induction l as [|b r IH]; intros st H; simpl; [exact H|].
  apply IH, Hf, H.
Qed.

Lemma router_step_keep rp best cid st r p c :
  has_child (fst st) p c -> has_child (fst (router_step rp best cid st r)) p c.
Proof.
  destruct st as [ch asg]. unfold router_step. simpl. intros H.
  destruct (dict_get String.eqb (node_id r) rp) as [[q l]|]; apply has_child_keep, H.
Qed.

Lemma end_device_step_keep nodes edges ep cid st d p c :
  has_child (fst st) p c -> has_child (fst (end_device_step nodes edges ep cid st d)) p c.
Proof.
  destruct st as [ch asg]. unfold end_device_step. simpl. intros H.
  destruct (mem_str (node_id d) asg); [exact H|].
  destruct (dict_get String.eqb (node_id d) ep) as [[q l]|]; [apply has_child_keep, H|].
  destruct (best_edge_parent nodes edges cid (node_id d)). apply has_child_keep, H.
Qed.

Lemma orphan_step_keep cid st n p c :
  has_child (fst st) p c -> has_child (fst (orphan_step cid st n)) p c.
Proof.
  destruct st as [ch asg]. unfold orphan_step. simpl. intros H.
  destruct (mem_str (node_id n) asg); [exact H|]. apply has_child_keep, H.
Qed.

Lemma has_child_sorted key ch p c :
  has_child ch p c ->
  exists cs, In (p, cs) (map (fun pc => (fst pc, stable_sort key (snd pc))) ch) /\ In c cs.
Proof.
  intros [cs [E H]]. exists (stable_sort key cs). split.
  - apply (in_map (fun pc => (fst pc, stable_sort key (snd pc))) _ (p, cs)).
    exact (dict_get_in _ _ _ string_eqb_spec' _ _ _ E).
  - apply (Permutation_in _ (Permutation_sym (stable_sort_perm key cs))). exact H.
Qed.

(** The reports the fallback edge scan reads for [d]: every edge touching
    [d] whose other end is a known Router or Coordinator. *)
Definition edge_cands (nodes : list (string * node)) (edges : list edge) (d : string)
  : list (string * Z) :=
  flat_map (fun e =>
     if String.eqb (e_source e) d || String.eqb (e_target e) d then
       let other := if String.eqb (e_source e) d then e_target e else e_source e in
       if node_type_is nodes other is_router_or_coord then [(other, e_lqi e)] else []
     else []) edges.

Definition best_pair (a : string * Z) (x : string * Z) : string * Z :=
  if snd a <? snd x then x else a.

Lemma best_step_some (l : list (string * Z)) a :
  fold_left best_step l (Some a) = Some (fold_left best_pair l a).
Proof.
  revert a. induction l as [|x r IH]; intros [q b]; simpl; [reflexivity|].
  unfold best_pair at 2. simpl. destruct (b <? snd x); apply IH.
Qed.

Lemma best_pair_filter (l : list (string * Z)) (a : string * Z) t :
  t <= snd a ->
  fold_left best_pair l a = fold_left best_pair (filter (fun x => t <? snd x) l) a.
Proof.
  revert a. induction l as [|x r IH]; intros a Ha; simpl; [reflexivity|].
  destruct (t <? snd x) eqn:Et; simpl.
  - apply IH. unfold best_pair. destruct (snd a <? snd x) eqn:Eb; [|exact Ha].
    apply Z.ltb_lt in Et. lia.
  - apply Z.ltb_ge in Et.
    assert (E : best_pair a x = a).
    { unfold best_pair. destruct (snd a <? snd x) eqn:Eb; [apply Z.ltb_lt in Eb; lia|reflexivity]. }
    rewrite E. apply IH. exact Ha.
Qed.

Lemma best_edge_parent_spec nodes edges cid d :
  best_edge_parent nodes edges cid d =
  match fold_left best_step (filter (fun x => 0 <? snd x) (edge_cands nodes edges d)) None with
  | Some pl => pl
  | None => (cid, 0)
  end.
Proof.
  assert (Hgen : forall (es : list edge) (a : string * Z),
    fold_left (fun acc e =>
     if String.eqb (e_source e) d || String.eqb (e_target e) d then
       let other := if String.eqb (e_source e) d then e_target e else e_source e in
       if node_type_is nodes other is_router_or_coord && (snd acc <? e_lqi e)
       then (other, e_lqi e) else acc
     else acc) es a = fold_left best_pair (edge_cands nodes es d) a).
  { induction es as [|e r IH]; intros a; simpl; [reflexivity|].
    unfold edge_cands in *. simpl. rewrite fold_left_app, <- IH.
    destruct (String.eqb (e_source e) d || String.eqb (e_target e) d); simpl; [|reflexivity].
    destruct (node_type_is nodes _ is_router_or_coord); reflexivity. }
  unfold best_edge_parent. rewrite Hgen.
  rewrite (best_pair_filter _ (cid, 0) 0) by (simpl; lia).
  assert (Hf : Forall (fun x => 0 < snd x) (filter (fun x => 0 <? snd x) (edge_cands nodes edges d))).
  { apply Forall_forall. intros x Hx. apply filter_In in Hx. apply Z.ltb_lt. tauto. }
  revert Hf. generalize (filter (fun x => 0 <? snd x) (edge_cands nodes edges d)).
  intros [|x r] Hf; [reflexivity|]. inversion Hf; subst. simpl.
  unfold best_pair at 2. simpl. destruct (0 <? snd x) eqn:E; [|apply Z.ltb_ge in E; lia].
  rewrite best_step_some. reflexivity.
Qed.





Lemma StronglySorted_weaken {A} (R R' : A -> A -> Prop) (l : list A) :
  (forall a b, R a b -> R' a b) -> StronglySorted R l -> StronglySorted R' l.
Proof.
  intros HR. induction l as [|x r IH]; intros H; [constructor|].
  apply StronglySorted_inv in H. destruct H as [Hs Hf].
  constructor; [exact (IH Hs)|]. eapply Forall_impl; [|exact Hf]. intros a. apply HR.
Qed.

(** The value of a digit string in [base], digit by digit. *)
Definition digits_value (base : Z) (cs : list ascii) : Z :=
  fold_left (fun a c => a * base + match digit_val c with Some d => d | None => 0 end) cs 0.

Definition is_digit (base : Z) (c : ascii) : Prop :=
  exists d, digit_val c = Some d /\ d < base.

Lemma digit_not_space c d : digit_val c = Some d -> py_space c = false.
Proof.
  unfold digit_val, py_space.
  set (n := nat_of_ascii c).
  destruct (48 <=? Z.of_nat n) eqn:E1, (Z.of_nat n <=? 57) eqn:E2; simpl;
  [|destruct (97 <=? Z.of_nat n) eqn:E3, (Z.of_nat n <=? 122) eqn:E4; simpl;
     [|destruct (65 <=? Z.of_nat n) eqn:E5, (Z.of_nat n <=? 90) eqn:E6; simpl; try discriminate..]..];
  try discriminate; intros _;
  repeat match goal with H : (_ <=? _) = _ |- _ => first [apply Z.leb_le in H | apply Z.leb_gt in H] end;
  destruct ((9 <=? n)%nat) eqn:F1, ((n <=? 13)%nat) eqn:F2, ((28 <=? n)%nat) eqn:F3, ((n <=? 32)%nat) eqn:F4;
  simpl; try reflexivity;
  repeat match goal with H : Nat.leb _ _ = _ |- _ => first [apply Nat.leb_le in H | apply Nat.leb_gt in H] end;
  lia.
Qed.

Lemma digit_not_underscore c d : digit_val c = Some d -> Ascii.eqb c "_"%char = false.
Proof.
  destruct (Ascii.eqb_spec c "_"%char) as [->|]; [discriminate|reflexivity].
Qed.

Lemma py_strip_id c r :
  py_space c = false -> py_space (last (c :: r) c) = false -> py_strip (c :: r) = c :: r.
Proof.
  intros Hc Hl. unfold py_strip. simpl drop_space. rewrite Hc.
  assert (E : exists x init, c :: r = init ++ [x] /\ py_space x = false).
  { exists (last (c :: r) c), (removelast (c :: r)). split; [|exact Hl].
    apply app_removelast_last. discriminate. }
  destruct E as [x [init [E Hx]]]. rewrite E, rev_app_distr. simpl. rewrite Hx.
  simpl. rewrite rev_involutive. reflexivity.
Qed.

Lemma last_digit base (cs : list ascii) c :
  Forall (is_digit base) (c :: cs) -> is_digit base (last (c :: cs) c).
Proof.
  revert c. induction cs as [|c' r IH]; intros c H; [inversion H; assumption|].
  change (last (c :: c' :: r) c) with (last (c' :: r) c).
  inversion H; subst.
  assert (E : last (c' :: r) c = last (c' :: r) c').
  { clear. revert c'. induction r as [|x r IH]; intros c'; [reflexivity|]. simpl. destruct r; [reflexivity|]. apply IH. }
  rewrite E. apply IH. assumption.
Qed.

Lemma py_digits_ok base (cs : list ascii) : forall acc ad,
  cs <> [] -> Forall (is_digit base) cs ->
  py_digits base cs acc ad =
  Some (fold_left (fun a c => a * base + match digit_val c with Some d => d | None => 0 end) cs acc).
Proof.
  induction cs as [|c r IH]; intros acc ad Hne Hf; [contradiction|].
  inversion Hf as [|? ? [d [Hd Hb]] Hr]; subst. simpl.
  rewrite (digit_not_underscore c d Hd), Hd.
  apply Z.ltb_lt in Hb. rewrite Hb.
  destruct r as [|c' r']; [reflexivity|]. apply IH; [discriminate|exact Hr].
Qed.

Lemma last_indep {A} (x : A) l d d' : last (x :: l) d = last (x :: l) d'.
Proof.
  revert x. induction l as [|y r IH]; intros x; [reflexivity|].
  change (last (y :: r) d = last (y :: r) d'). apply IH.
Qed.

(** Two routers naming each other as [Parent]. *)
Section CycleSnapshot.
Local Open Scope string_scope.
End CycleSnapshot.

Section Snapshots.
Local Open Scope string_scope.

(** A Router reports the end device E as its Child; E itself reports
    nothing. *)
Definition child_only_devs : list device :=
  [mkDevice "C" (JInt 0) Coordinator [] [];
   mkDevice "R" (JStr "0x0001") Router
     [mkNeighbor "C" (JInt 0) (JInt 200) Parent; mkNeighbor "E" (JStr "0x0002") (JInt 100) Child] [];
   mkDevice "E" (JStr "0x0002") EndDevice [] []].

(** The coordinator's own neighbor table marks the Router R as Parent. *)
Definition coord_parent_devs : list device :=
  [mkDevice "C" (JInt 0) Coordinator [mkNeighbor "R" (JStr "0x0001") (JInt 80) Parent] [];
   mkDevice "R" (JStr "0x0001") Router [mkNeighbor "C" (JInt 0) (JInt 200) Parent] []].

(** D routes to the coordinator through next hop 6699, the nwk of R2. *)
Definition route_devs (r2_nwk : jvalue) : list device :=
  [mkDevice "C" (JInt 0) Coordinator [] [];
   mkDevice "R2" r2_nwk Router [] [];
   mkDevice "D" (JStr "0x0003") EndDevice [] [mkRoute (JInt 0) (JInt 6699) Active]].

(** A Router reporting its Parent with the given lqi. *)
Definition lqi_devs (l : jvalue) : list device :=
  [mkDevice "C" (JInt 0) Coordinator [] [];
   mkDevice "R" (JStr "0x0001") Router [mkNeighbor "C" (JInt 0) l Parent] []].

(** Routers A -> B -> D -> B by their own Parent entries: a cycle of
    parent reports that does not contain A. *)
Definition loop_devs : list device :=
  [mkDevice "C" (JInt 0) Coordinator [] [];
   mkDevice "A" (JStr "0x0001") Router [mkNeighbor "B" (JStr "0x0002") (JInt 10) Parent] [];
   mkDevice "B" (JStr "0x0002") Router [mkNeighbor "D" (JStr "0x0003") (JInt 20) Parent] [];
   mkDevice "D" (JStr "0x0003") Router [mkNeighbor "B" (JStr "0x0002") (JInt 30) Parent] []].

Definition hier_of (devs : list device) : hierarchy :=
  match build_hierarchy (export_of devs) with
  | Some h => h
  | None => mkHierarchy (mkNode "" OtherType false) [] [] []
  end.

(** Two Routers under the coordinator that report each other as
    [Sibling], R2 with a textual lqi. *)
Definition sibling_devs : list device :=
  [mkDevice "C" (JInt 0) Coordinator [] [];
   mkDevice "R1" (JStr "0x0001") Router
     [mkNeighbor "C" (JInt 0) (JInt 200) Parent; mkNeighbor "R2" (JStr "0x0002") (JInt 120) Sibling] [];
   mkDevice "R2" (JStr "0x0002") Router
     [mkNeighbor "C" (JInt 0) (JInt 180) Parent; mkNeighbor "R1" (JStr "0x0001") (JStr "90") Sibling] []].

(** The d3 node list [generate_html] builds for [sibling_devs]. *)
Definition sibling_d3 : list d3node :=
  let h := hier_of sibling_devs in
  match d3_nodes (h_devices h) (h_nodes h) with Some ds => ds | None => [] end.

End Snapshots.

(** * Claims *)

(** C8: the Edge Reducer's lookup [get_link_lqi] over [best_link] is
    symmetric in its two identities and equals the maximum lqi over every
    report of the unordered pair in either direction (duplicates included),
    0 when the pair has no report. *)
Theorem edge_quality_symmetric_max (edges : list edge) (a b : string) :
  get_link_lqi (best_link edges) a b = get_link_lqi (best_link edges) b a /\
  get_link_lqi (best_link edges) a b = edge_quality_spec edges a b.
Proof.
  split.
  - unfold get_link_lqi. rewrite link_key_sym. reflexivity.
  - apply get_link_lqi_spec.
Qed.

Lemma build_hierarchy_none devs :
  NoDup (map d_ieee devs) ->
  (build_hierarchy (export_of devs) = None <-> Forall (fun d => d_type d <> Coordinator) devs).
Proof.
  intros Hu. unfold build_hierarchy, export_of. simpl.
  rewrite (dict_of_nodup _ _ _ string_eqb_spec').
  2:{ unfold topo_nodes. rewrite !map_map. simpl. exact Hu. }
  unfold find_coordinator, topo_nodes. rewrite !map_map. simpl.
  split.
  - destruct (find _ _) eqn:F; [discriminate|]. intros _.
    apply Forall_forall. intros d Hd Hc.
    assert (Hin : In (node_of d) (map node_of devs)) by (apply in_map; exact Hd).
    pose proof (find_none _ _ F _ Hin) as Hf. simpl in Hf. rewrite Hc in Hf. discriminate.
  - intros Hall. destruct (find _ _) as [n|] eqn:F; [|reflexivity].
    apply find_some in F. destruct F as [Hn Hc].
    apply in_map_iff in Hn. destruct Hn as [d [<- Hd]].
    rewrite Forall_forall in Hall. specialize (Hall d Hd).
    simpl in Hc. destruct (d_type d); simpl in Hc; congruence.
Qed.

(** C7: with distinct device identities, the run fails with the distinct
    [CouldNotBuildHierarchy] error exactly when no device has type
    Coordinator, and yields a hierarchy whenever one does. *)
Theorem missing_coordinator_fails (devs : list device) (Hu : NoDup (map d_ieee devs)) :
  (generate_visualization devs = inl CouldNotBuildHierarchy <->
   Forall (fun d => d_type d <> Coordinator) devs) /\
  ((exists d, In d devs /\ d_type d = Coordinator) ->
   exists h, generate_visualization devs = inr h).
Proof.
  pose proof (build_hierarchy_none devs Hu) as H.
  unfold generate_visualization. split.
  - rewrite <- H. destruct (build_hierarchy (export_of devs)); split; congruence.
  - intros [d [Hd Hc]].
    destruct (build_hierarchy (export_of devs)) as [h|] eqn:E; [eauto|].
    exfalso. destruct H as [H1 _]. specialize (H1 eq_refl).
    rewrite Forall_forall in H1. exact (H1 d Hd Hc).
Qed.

Lemma Perm_in_iff {A} (l l' : list A) x : Permutation l l' -> (In x l <-> In x l').
Proof. intros H. split; apply Permutation_in; [exact H|symmetry; exact H]. Qed.

(** C2: for a snapshot with a coordinator, every device other than the
    coordinator appears in exactly one children list, the coordinator in
    none, and the children lists plus the coordinator cover exactly the
    snapshot's device identities. *)
Theorem hierarchy_assigns_each_device_once (devs : list device) (h : hierarchy)
    (Hh : build_hierarchy (export_of devs) = Some h) :
  (forall k, In k (map d_ieee devs) <->
             k = node_id (h_coordinator h) \/ In k (child_ids (h_children h))) /\
  NoDup (node_id (h_coordinator h) :: child_ids (h_children h)).
Proof.
  destruct (hierarchy_children_perm devs h Hh) as [Hnd [Hcid Hp]].
  assert (Hkeys : forall k, In k (map fst (h_nodes h)) <-> In k (map d_ieee devs)).
  { intros k. unfold build_hierarchy in Hh.
    destruct (find_coordinator _); [|discriminate]. inversion Hh; subst h; simpl.
    rewrite (dict_of_keys _ _ _ string_eqb_spec'). unfold export_of, topo_nodes; simpl.
    rewrite !map_map. simpl. reflexivity. }
  split.
  - intros k. rewrite <- Hkeys. rewrite (Perm_in_iff _ _ _ Hp).
    rewrite filter_In. destruct (String.eqb_spec k (node_id (h_coordinator h))) as [E|E].
    + subst. split; [intros _; left; reflexivity|intros _; exact Hcid].
    + simpl. split; [tauto|]. intros [H|H]; [contradiction|tauto].
  - constructor.
    + rewrite (Perm_in_iff _ _ _ Hp), filter_In, String.eqb_refl. simpl.
      intros [_ H]; discriminate.
    + apply (Permutation_NoDup (Permutation_sym Hp)). apply NoDup_filter. exact Hnd.
Qed.



(** C10 (counterexample): a Router whose own Parent entry carries lqi -5
    gets a [parent] PrimaryLink whose lqi is the negative integer -5; the
    coerced lqi is not clamped to be non-negative. *)
Lemma primary_link_negative_lqi :
  exists h, build_hierarchy (export_of (lqi_devs (JInt (-5)))) = Some h /\
    dict_get String.eqb "R"%string (primary_links h)
      = Some (mkPlink "C"%string (Some (-5)) SParent) /\
    ~ (0 <= -5).
Proof.
  eexists. split; [vm_compute; reflexivity|]. split; [vm_compute; reflexivity|lia].
Qed.

(** C10 (amended): for every device with a PrimaryLink, its lqi is null
    exactly when its sourceType is fallback. A route link carries the
    int() coercion of the lqi of the device's first neighbor entry for the
    next hop of its first usable route to the coordinator, or 0 when no
    entry matches; a parent link carries the int() coercion of the lqi of
    the device's own Parent entry for the target, or of the target's Child
    report about the device; a neighbor link carries a non-negative
    integer. Nothing is clamped. *)
Theorem primary_link_lqi_null_iff_fallback (h : hierarchy) (k : string) (v : plink)
  (Hin : dict_get String.eqb k (primary_links h) = Some v) :
  (pl_lqi v = None <-> pl_source_type v = SFallback) /\
  (pl_source_type v = SRoute ->
   exists d r nh, In (k, d) (h_devices h) /\ In r (d_routes d) /\ route_usable r = true /\
     nwk_to_int (r_dest_nwk r) = Some 0 /\ nwk_to_int (r_next_hop r) = Some nh /\
     (if nh =? 0 then pl_target v = node_id (h_coordinator h)
      else dict_get jv_eqb (JInt nh) (nwk_index (h_devices h)) = Some (pl_target v)) /\
     ((pl_lqi v = Some 0 /\ Forall (fun n => hop_match nh (pl_target v) n = false) (d_neighbors d)) \/
      exists pre n post, d_neighbors d = pre ++ n :: post /\
        Forall (fun n => hop_match nh (pl_target v) n = false) pre /\
        hop_match nh (pl_target v) n = true /\ pl_lqi v = Some (link_lqi (n_lqi n)))) /\
  (pl_source_type v = SParent ->
   exists od n,
     ((In (k, od) (h_devices h) /\ In n (d_neighbors od) /\ n_rel n = Parent /\
       n_ieee n = pl_target v) \/
      child_report (h_nodes h) (h_devices h) k (pl_target v) od n) /\
     pl_lqi v = Some (link_lqi (n_lqi n))) /\
  (pl_source_type v = SNeighbor -> exists z, pl_lqi v = Some z /\ 0 <= z).
Proof.
  apply (dict_get_in _ _ _ string_eqb_spec') in Hin.
  pose proof (primary_links_origin h k v Hin) as Ho.
  split; [exact (proj1 (primary_links_shape h k v Hin))|].
  unfold link_origin in Ho.
  destruct (pl_source_type v) eqn:Es; split; try discriminate; try split; try discriminate;
    intros _.
  - destruct Ho as [d [r [nh [H1 [H2 [H3 [H4 [H5 [H6 H7]]]]]]]]].
    exists d, r, nh. do 6 (split; [assumption|]).
    destruct (next_hop_lqi_spec (d_neighbors d) nh (pl_target v))
      as [[E F]|[pre [n [post [E1 [E2 [E3 E4]]]]]]].
    + left. rewrite H7, E. auto.
    + right. exists pre, n, post. rewrite H7, E4. auto.
  - destruct Ho as [[d [n [H1 [H2 [H3 [H4 H5]]]]]]|[od [n [H1 H2]]]].
    + exists d, n. split; [left; auto|exact H5].
    + exists od, n. split; [right; exact H1|exact H2].
  - destruct Ho as [d [n [H1 [H2 [H3 [H4 H5]]]]]]. exists (link_lqi (n_lqi n)). auto.
Qed.

Lemma primary_link_lqi_null_iff_fallback_witness :
  let h := hier_of child_only_devs in
  let k := "E"%string in
  let v := mkPlink "R"%string (Some 100) SParent in
  (pl_lqi v = None <-> pl_source_type v = SFallback) /\
  (pl_source_type v = SRoute ->
   exists d r nh, In (k, d) (h_devices h) /\ In r (d_routes d) /\ route_usable r = true /\
     nwk_to_int (r_dest_nwk r) = Some 0 /\ nwk_to_int (r_next_hop r) = Some nh /\
     (if nh =? 0 then pl_target v = node_id (h_coordinator h)
      else dict_get jv_eqb (JInt nh) (nwk_index (h_devices h)) = Some (pl_target v)) /\
     ((pl_lqi v = Some 0 /\ Forall (fun n => hop_match nh (pl_target v) n = false) (d_neighbors d)) \/
      exists pre n post, d_neighbors d = pre ++ n :: post /\
        Forall (fun n => hop_match nh (pl_target v) n = false) pre /\
        hop_match nh (pl_target v) n = true /\ pl_lqi v = Some (link_lqi (n_lqi n)))) /\
  (pl_source_type v = SParent ->
   exists od n,
     ((In (k, od) (h_devices h) /\ In n (d_neighbors od) /\ n_rel n = Parent /\
       n_ieee n = pl_target v) \/
      child_report (h_nodes h) (h_devices h) k (pl_target v) od n) /\
     pl_lqi v = Some (link_lqi (n_lqi n))) /\
  (pl_source_type v = SNeighbor -> exists z, pl_lqi v = Some z /\ 0 <= z).
Proof.
  apply (primary_link_lqi_null_iff_fallback (hier_of child_only_devs) "E"%string
           (mkPlink "R"%string (Some 100) SParent)).
  vm_compute. reflexivity.
Defined.

(** C9 (counterexample): a neighbor report with lqi 300 yields an edge of
    lqi 300 and a PrimaryLink of lqi 300; nothing clamps lqi into 0-255. *)
Lemma lqi_not_clamped :
  In (mkEdge "R"%string "C"%string 300 Parent) (topo_edges (lqi_devs (JInt 300))) /\
  exists h, build_hierarchy (export_of (lqi_devs (JInt 300))) = Some h /\
    dict_get String.eqb "R"%string (primary_links h)
      = Some (mkPlink "C"%string (Some 300) SParent) /\
    ~ (300 <= 255).
Proof.
  split; [vm_compute; left; reflexivity|].
  eexists. split; [vm_compute; reflexivity|]. split; [vm_compute; reflexivity|lia].
Qed.

(** C9 (amended): every edge's lqi is the coercion of the lqi of the
    neighbor report it is built from, and every PrimaryLink lqi is 0 or
    the coercion of the lqi of some neighbor report of the export. The
    coercion takes null (a missing field) to 0, an integer as it is (no
    clamping), and a string to its int(), or to 0 when int() rejects it,
    as it rejects the empty string. *)
Theorem lqi_coercion (devs : list device) (h : hierarchy)
  (Hh : build_hierarchy (export_of devs) = Some h) :
  (forall e, In e (topo_edges devs) ->
   exists d n, In d devs /\ In n (d_neighbors d) /\ e_source e = d_ieee d /\
     e_target e = n_ieee n /\ e_rel e = n_rel n /\ e_lqi e = link_lqi (n_lqi n)) /\
  (forall k v z, In (k, v) (primary_links h) -> pl_lqi v = Some z ->
   z = 0 \/ exists d n, In d devs /\ In n (d_neighbors d) /\ z = link_lqi (n_lqi n)) /\
  link_lqi JNull = 0 /\
  (forall z, link_lqi (JInt z) = z) /\
  (forall s, link_lqi (JStr s) = match py_int 10 s with Some z => z | None => 0 end) /\
  py_int 10 ""%string = None.
Proof.
  split; [|split; [|split; [reflexivity|split; [|split; [|reflexivity]]]]].
  - intros e He. unfold topo_edges in He. apply in_flat_map in He.
    destruct He as [d [Hd He]]. unfold edges_of_device in He. apply in_flat_map in He.
    destruct He as [n [Hn He]].
    destruct (negb (String.eqb (n_ieee n) "")); [|destruct He].
    destruct He as [<-|[]]. exists d, n. simpl. rewrite edge_lqi_link_lqi. auto 7.
  - intros k v z Hin Hz. pose proof (primary_links_origin h k v Hin) as Ho.
    unfold link_origin in Ho.
    destruct (pl_source_type v).
    + destruct Ho as [d [r [nh [H1 [_ [_ [_ [_ [_ H7]]]]]]]]].
      rewrite Hz in H7. injection H7 as ->.
      destruct (next_hop_lqi_spec (d_neighbors d) nh (pl_target v))
        as [[E _]|[pre [n [post [E1 [_ [_ E4]]]]]]]; [left; exact E|].
      right. exists d, n. split; [exact (hierarchy_devices_in devs h k d Hh H1)|].
      rewrite E4, E1. split; [apply in_or_app; right; left; reflexivity|reflexivity].
    + destruct Ho as [[d [n [H1 [H2 [_ [_ H5]]]]]]|[od [n [[H1 [_ [_ [H2 _]]]] H5]]]];
        rewrite Hz in H5; injection H5 as ->; right.
      * exists d, n. split; [exact (hierarchy_devices_in devs h k d Hh H1)|auto].
      * exists od, n. split; [exact (hierarchy_devices_in devs h _ od Hh H1)|auto].
    + destruct Ho as [d [n [H1 [H2 [_ [H4 _]]]]]]. rewrite Hz in H4. injection H4 as ->.
      right. exists d, n. split; [exact (hierarchy_devices_in devs h k d Hh H1)|auto].
    + destruct Ho as [_ H]. congruence.
  - intros z. unfold link_lqi, jtruthy. destruct (z =? 0) eqn:E; simpl; [|reflexivity].
    apply Z.eqb_eq in E. symmetry. exact E.
  - intros s. unfold link_lqi, jtruthy.
    destruct (String.eqb_spec s ""%string) as [->|]; simpl; reflexivity.
Qed.

Lemma lqi_coercion_witness :
  let devs := lqi_devs (JInt 300) in
  let h := hier_of (lqi_devs (JInt 300)) in
  (forall e, In e (topo_edges devs) ->
   exists d n, In d devs /\ In n (d_neighbors d) /\ e_source e = d_ieee d /\
     e_target e = n_ieee n /\ e_rel e = n_rel n /\ e_lqi e = link_lqi (n_lqi n)) /\
  (forall k v z, In (k, v) (primary_links h) -> pl_lqi v = Some z ->
   z = 0 \/ exists d n, In d devs /\ In n (d_neighbors d) /\ z = link_lqi (n_lqi n)) /\
  link_lqi JNull = 0 /\
  (forall z, link_lqi (JInt z) = z) /\
  (forall s, link_lqi (JStr s) = match py_int 10 s with Some z => z | None => 0 end) /\
  py_int 10 ""%string = None.
Proof.
  apply (lqi_coercion (lqi_devs (JInt 300)) (hier_of (lqi_devs (JInt 300)))).
  vm_compute. reflexivity.
Defined.

(** C3 (code bug): the parent tier of [device_primary_link] does not skip
    the coordinator, so a coordinator whose own neighbor table marks a
    known node as Parent gets a PrimaryLink (here to R, source parent). *)
Theorem coordinator_gets_parent_link :
  exists h, build_hierarchy (export_of coord_parent_devs) = Some h /\
    node_id (h_coordinator h) = "C"%string /\
    dict_get String.eqb (node_id (h_coordinator h)) (primary_links h)
      = Some (mkPlink "R"%string (Some 80) SParent).
Proof.
  eexists. split; [vm_compute; reflexivity|]. split; vm_compute; reflexivity.
Qed.

(** C5 (code bug): the [nwk_to_ieee] index is keyed by the raw nwk value,
    so a next hop 6699 is resolved when R2's nwk is the integer 6699 but
    not when it is the string "0x1A2B" that normalizes to 6699: D then gets
    a fallback link instead of a route link. *)
Theorem route_next_hop_hex_nwk_missed :
  nwk_to_int (JStr "0x1A2B"%string) = Some 6699 /\
  option_map (fun h => dict_get String.eqb "D"%string (primary_links h))
    (build_hierarchy (export_of (route_devs (JInt 6699))))
    = Some (Some (mkPlink "R2"%string (Some 0) SRoute)) /\
  option_map (fun h => dict_get String.eqb "D"%string (primary_links h))
    (build_hierarchy (export_of (route_devs (JStr "0x1A2B"%string))))
    = Some (Some (mkPlink "C"%string None SFallback)).
Proof.
  split; [|split]; vm_compute; reflexivity.
Qed.




(** C6 (counterexample): with the PrimaryLinks A -> B, B -> D, D -> B
    (three Routers reporting each other as Parent), the path of A is
    B, D, B: the last hop is appended before the revisit is detected, so
    the identity B appears twice. *)
Lemma path_repeats_last_hop :
  exists h p, build_hierarchy (export_of loop_devs) = Some h /\
    path_to_coordinator (h_nodes h) (primary_links h) (node_id (h_coordinator h)) "A"%string
      = Some p /\
    map hop_id p = ["B"; "D"; "B"]%string /\
    ~ NoDup (map hop_id p).
Proof.
  eexists. eexists. split; [vm_compute; reflexivity|]. split; [vm_compute; reflexivity|].
  split; [reflexivity|].
  intros H. inversion H as [|? ? Hn _]. apply Hn. right. left. reflexivity.
Qed.

(** C6 (amended): for every PrimaryLink map, even a cyclic one, the Path
    Resolver returns a path (it never runs out of steps and never fails);
    the path has at most as many hops as the map has entries; the
    coordinator's path is empty; and the start device together with every
    hop but the last are pairwise distinct, so an identity can repeat only
    as the last hop, where the walk stops on the revisit. *)
Theorem path_walk_terminates (nodes : list (string * node)) (links : links_map)
  (cid node_id : string) :
  exists p, path_to_coordinator nodes links cid node_id = Some p /\
    (List.length p <= List.length links)%nat /\
    NoDup (node_id :: removelast (map hop_id p)) /\
    (node_id = cid -> p = []).
Proof.
  unfold path_to_coordinator.
  destruct (String.eqb_spec node_id cid) as [Heq|Hne].
  - exists []. split; [reflexivity|]. split; [simpl; lia|].
    split; [constructor; [intros []|constructor]|reflexivity].
  - destruct (walk_spec nodes links cid (S (List.length links)) [] node_id)
      as [p [Hw [Hl [Hn _]]]].
    { rewrite unvisited_nil. lia. }
    exists p. split; [exact Hw|]. rewrite unvisited_nil in Hl. split; [exact Hl|].
    split; [|intros H; contradiction].
    destruct p as [|x p]; [constructor; [intros []|constructor]|].
    exact Hn.
Qed.

Lemma missing_coordinator_fails_witness :
  (generate_visualization [ex_dev_R; ex_dev_E] = inl CouldNotBuildHierarchy <->
   Forall (fun d => d_type d <> Coordinator) [ex_dev_R; ex_dev_E]) /\
  ((exists d, In d [ex_dev_R; ex_dev_E] /\ d_type d = Coordinator) ->
   exists h, generate_visualization [ex_dev_R; ex_dev_E] = inr h).
Proof.
  apply (missing_coordinator_fails [ex_dev_R; ex_dev_E]).
  vm_compute. constructor; [intros [H|[]]; discriminate|constructor; [intros []|constructor]].
Defined.

Lemma hierarchy_assigns_each_device_once_witness :
  (forall k, In k (map d_ieee [ex_dev_C; ex_dev_R; ex_dev_E]) <->
     k = node_id (h_coordinator (hier_of [ex_dev_C; ex_dev_R; ex_dev_E])) \/
     In k (child_ids (h_children (hier_of [ex_dev_C; ex_dev_R; ex_dev_E])))) /\
  NoDup (node_id (h_coordinator (hier_of [ex_dev_C; ex_dev_R; ex_dev_E])) ::
         child_ids (h_children (hier_of [ex_dev_C; ex_dev_R; ex_dev_E]))).
Proof.
  apply (hierarchy_assigns_each_device_once [ex_dev_C; ex_dev_R; ex_dev_E]).
  vm_compute. reflexivity.
Defined.


(** * Further properties *)

(** X1: every children list of [build_hierarchy] is sorted by its sort
    key: Routers before all other nodes, and within each group by
    decreasing lqi, a missing lqi counting as 0. *)
Theorem hierarchy_children_sorted (data : export) (h : hierarchy)
  (Hh : build_hierarchy data = Some h) :
  forall p cs, In (p, cs) (h_children h) ->
    StronglySorted (fun a b =>
      fst (child_key (h_nodes h) a) < fst (child_key (h_nodes h) b) \/
      (fst (child_key (h_nodes h) a) = fst (child_key (h_nodes h) b) /\
       snd (child_key (h_nodes h) a) <= snd (child_key (h_nodes h) b))) cs.
Proof.
  unfold build_hierarchy in Hh. destruct (find_coordinator _); [|discriminate].
  inversion Hh; subst h; clear Hh; simpl.
  intros p cs Hin. apply in_map_iff in Hin. destruct Hin as [[p0 cs0] [Heq _]].
  inversion Heq; subst. exact (stable_sort_sorted (child_key _) cs0).
Qed.

Lemma hierarchy_children_sorted_witness :
  let h := hier_of sibling_devs in
  StronglySorted (fun a b =>
      fst (child_key (h_nodes h) a) < fst (child_key (h_nodes h) b) \/
      (fst (child_key (h_nodes h) a) = fst (child_key (h_nodes h) b) /\
       snd (child_key (h_nodes h) a) <= snd (child_key (h_nodes h) b)))
    [("R1"%string, Some 200); ("R2"%string, Some 180)].
Proof.
  apply (hierarchy_children_sorted (export_of sibling_devs) (hier_of sibling_devs)
           ltac:(vm_compute; reflexivity) "C"%string).
  vm_compute. left. reflexivity.
Defined.

(** X2: an lqi recorded in a children list of [build_hierarchy] is
    positive: a link quality of 0 or below is stored as [None]. *)
Theorem hierarchy_children_lqi_positive (data : export) (h : hierarchy)
  (Hh : build_hierarchy data = Some h) :
  forall p cs c l, In (p, cs) (h_children h) -> In (c, Some l) cs -> 0 < l.
Proof.
  unfold build_hierarchy in Hh. destruct (find_coordinator _) as [coord|]; [|discriminate].
  inversion Hh; subst h; clear Hh; simpl.
  intros p cs c l Hin Hc.
  destruct (sorted_children_in _ _ _ _ _ Hin Hc) as [cs0 [Hin0 Hc0]].
  set (nodes := dict_of String.eqb (map (fun n => (node_id n, n)) (x_nodes data))) in *.
  set (cid := node_id coord) in *.
  assert (Hall : children_all lqi_entry_ok
    (fst (orphan_tier nodes cid (end_device_tier nodes (x_edges data) cid
            (router_tier nodes (x_edges data) cid ([], [cid])))))).
  { unfold orphan_tier, end_device_tier, router_tier.
    assert (Ho : forall ns st, children_all lqi_entry_ok (fst st) ->
              children_all lqi_entry_ok (fst (fold_left (orphan_step cid) ns st))).
    { induction ns as [|n r IH]; intros [ch asg] H; simpl; [exact H|]. apply IH.
      unfold orphan_step. destruct (mem_str (node_id n) asg); [exact H|].
      apply children_all_add; [exact H|exact I]. }
    apply Ho.
    assert (He : forall ds st, children_all lqi_entry_ok (fst st) ->
              children_all lqi_entry_ok (fst (fold_left
                (end_device_step nodes (x_edges data) (end_device_parent nodes (x_edges data)) cid) ds st))).
    { induction ds as [|d r IH]; intros [ch asg] H; simpl; [exact H|]. apply IH.
      unfold end_device_step. destruct (mem_str (node_id d) asg); [exact H|].
      destruct (dict_get String.eqb (node_id d) (end_device_parent nodes (x_edges data))) as [[q l']|].
      - apply children_all_add; [exact H|apply lqi_or_none_ok].
      - destruct (best_edge_parent nodes (x_edges data) cid (node_id d)) as [bp bl].
        apply children_all_add; [exact H|apply lqi_or_none_ok]. }
    apply He.
    assert (Hr : forall rs st, children_all lqi_entry_ok (fst st) ->
              children_all lqi_entry_ok (fst (fold_left
                (router_step (router_parents nodes (x_edges data)) (best_link (x_edges data)) cid) rs st))).
    { induction rs as [|r rest IH]; intros [ch asg] H; simpl; [exact H|]. apply IH.
      unfold router_step. destruct (dict_get String.eqb (node_id r) (router_parents nodes (x_edges data))) as [[q l']|];
        apply children_all_add; (exact H || apply lqi_or_none_ok). }
    apply Hr. intros ? ? ? []. }
  exact (Hall _ _ _ Hin0 Hc0).
Qed.

Lemma hierarchy_children_lqi_positive_witness : 0 < 180.
Proof.
  apply (hierarchy_children_lqi_positive (export_of sibling_devs) (hier_of sibling_devs)
           ltac:(vm_compute; reflexivity) "C"%string
           [("R1"%string, Some 200); ("R2"%string, Some 180)] "R2"%string 180).
  - vm_compute. left. reflexivity.
  - right. left. reflexivity.
Defined.

(** X3: for devices with distinct ieee addresses, the nodes of
    [build_hierarchy] are the devices in export order, and its coordinator
    is the node of the first device of type Coordinator. *)
Theorem hierarchy_coordinator_first (devs : list device) (h : hierarchy)
  (Hu : NoDup (map d_ieee devs))
  (Hh : build_hierarchy (export_of devs) = Some h) :
  h_nodes h = map (fun d => (d_ieee d, node_of d)) devs /\
  exists pre d post, devs = pre ++ d :: post /\ d_type d = Coordinator /\
    Forall (fun d' => d_type d' <> Coordinator) pre /\
    h_coordinator h = node_of d.
Proof.
  unfold build_hierarchy, export_of in Hh. simpl in Hh.
  rewrite (dict_of_nodup _ _ _ string_eqb_spec') in Hh.
  2:{ unfold topo_nodes. rewrite !map_map. exact Hu. }
  unfold find_coordinator, topo_nodes in Hh. rewrite !map_map in Hh. simpl in Hh.
  idtac.
  destruct (find _ _) as [c|] eqn:F; [|discriminate].
  inversion Hh; subst h; clear Hh. simpl.
  split; [reflexivity|].
  idtac.
  rewrite find_map' in F.
  destruct (find (fun d => node_is_coordinator (node_of d)) devs) as [d|] eqn:F'; [|discriminate].
  simpl in F. inversion F; subst c.
  destruct (find_first _ _ _ F') as [pre [post [-> [Hd Hpre]]]].
  exists pre, d, post. split; [reflexivity|]. split.
  - simpl in Hd. destruct (d_type d); simpl in Hd; congruence.
  - split; [|reflexivity]. rewrite Forall_forall in *. intros y Hy Hc.
    specialize (Hpre y Hy). simpl in Hpre. rewrite Hc in Hpre. discriminate.
Qed.

Lemma hierarchy_coordinator_first_witness :
  let devs := sibling_devs in
  let h := hier_of sibling_devs in
  h_nodes h = map (fun d => (d_ieee d, node_of d)) devs /\
  exists pre d post, devs = pre ++ d :: post /\ d_type d = Coordinator /\
    Forall (fun d' => d_type d' <> Coordinator) pre /\
    h_coordinator h = node_of d.
Proof.
  apply (hierarchy_coordinator_first sibling_devs (hier_of sibling_devs)).
  - vm_compute. repeat constructor; simpl; intuition discriminate.
  - vm_compute. reflexivity.
Defined.

(** X4: a Router is placed under the candidate of highest lqi, the
    first one in edge order on a tie, among the targets of its own
    [Parent] reports and the Routers and Coordinators that report it as
    [Child]; with no candidate it is placed under the coordinator, with
    the best reported lqi of that pair. *)
Theorem hierarchy_router_parent (data : export) (h : hierarchy)
  (Hh : build_hierarchy data = Some h) (r : node)
  (Hr : In r (map snd (h_nodes h))) (Ht : node_type r = Router) :
  let cid := node_id (h_coordinator h) in
  let cands := router_cands (h_nodes h) (x_edges data) (node_id r) in
  (cands = [] -> exists cs, In (cid, cs) (h_children h) /\
     In (node_id r, lqi_or_none (get_link_lqi (best_link (x_edges data)) cid (node_id r))) cs) /\
  (cands <> [] -> exists p l cs, first_max cands p l /\
     In (p, cs) (h_children h) /\ In (node_id r, lqi_or_none l) cs).
Proof.
  revert Hr. unfold build_hierarchy in Hh.
  destruct (find_coordinator _) as [coord|]; [|discriminate].
  inversion Hh; subst h; clear Hh. simpl. intros Hr.
  set (nodes := dict_of String.eqb (map (fun n => (node_id n, n)) (x_nodes data))) in *.
  set (edges := x_edges data).
  set (cid := node_id coord).
  pose proof (best_fold_spec (router_cands nodes edges (node_id r))) as Hb.
  rewrite <- router_parents_get in Hb.
  assert (Hrt : has_child (fst (router_tier nodes edges cid ([], [cid])))
     (match dict_get String.eqb (node_id r) (router_parents nodes edges) with
      | Some (p, l) => p | None => cid end)
     (node_id r, match dict_get String.eqb (node_id r) (router_parents nodes edges) with
      | Some (p, l) => lqi_or_none l
      | None => lqi_or_none (get_link_lqi (best_link edges) cid (node_id r)) end)).
  { unfold router_tier.
    assert (Hin : In r (filter (fun n => dtype_eqb (node_type n) Router) (map snd nodes)))
      by (apply filter_In; rewrite Ht; auto).
    destruct (in_split _ _ Hin) as [pre [post Hs]]. rewrite Hs, fold_left_app. simpl.
    apply (fold_has_child _ (fun st b p c => router_step_keep _ _ _ st b p c)).
    destruct (fold_left _ pre _) as [ch asg]. unfold router_step. simpl.
    destruct (dict_get String.eqb (node_id r) (router_parents nodes edges)) as [[p l]|];
      apply has_child_new. }
  assert (Hall : forall p c, has_child (fst (router_tier nodes edges cid ([], [cid]))) p c ->
    exists cs, In (p, cs) (map (fun pc => (fst pc, stable_sort (child_key nodes) (snd pc)))
      (fst (orphan_tier nodes cid (end_device_tier nodes edges cid
         (router_tier nodes edges cid ([], [cid])))))) /\ In c cs).
  { intros p c H. apply has_child_sorted.
    unfold orphan_tier. apply (fold_has_child _ (fun st b p c => orphan_step_keep _ st b p c)).
    unfold end_device_tier.
    apply (fold_has_child _ (fun st b p c => end_device_step_keep _ _ _ _ st b p c)).
    exact H. }
  destruct (dict_get String.eqb (node_id r) (router_parents nodes edges)) as [[p l]|].
  - split.
    + intros He. unfold first_max in Hb. destruct Hb as [pre [post [Hc _]]].
      fold edges in He. rewrite He in Hc. destruct pre; discriminate.
    + intros _. destruct (Hall _ _ Hrt) as [cs [H1 H2]]. exists p, l, cs. auto.
  - split; [intros _; exact (Hall _ _ Hrt)|]. intros Hne. contradiction.
Qed.

Lemma hierarchy_router_parent_witness :
  let data := export_of [ex_dev_C; ex_dev_R; ex_dev_E] in
  let h := ex_hier in
  let r := node_of ex_dev_R in
  let cid := node_id (h_coordinator h) in
  let cands := router_cands (h_nodes h) (x_edges data) (node_id r) in
  (cands = [] -> exists cs, In (cid, cs) (h_children h) /\
     In (node_id r, lqi_or_none (get_link_lqi (best_link (x_edges data)) cid (node_id r))) cs) /\
  (cands <> [] -> exists p l cs, first_max cands p l /\
     In (p, cs) (h_children h) /\ In (node_id r, lqi_or_none l) cs).
Proof.
  apply (hierarchy_router_parent (export_of [ex_dev_C; ex_dev_R; ex_dev_E]) ex_hier
           ltac:(vm_compute; reflexivity) (node_of ex_dev_R)).
  - vm_compute. right. left. reflexivity.
  - vm_compute. reflexivity.
Defined.



(** X6: the primary-link map of [generate_html] has each key once, only
    keys of hierarchy nodes, and a link for every node but the
    coordinator. *)
Theorem primary_links_keys (data : export) (h : hierarchy)
  (Hh : build_hierarchy data = Some h) :
  NoDup (map fst (primary_links h)) /\
  (forall k, In k (map fst (primary_links h)) -> In k (map fst (h_nodes h))) /\
  (forall k, In k (map fst (h_nodes h)) -> k <> node_id (h_coordinator h) ->
     exists v, dict_get String.eqb k (primary_links h) = Some v).
Proof.
  split; [|split].
  - unfold primary_links.
    rewrite fallback_tier_g, neighbor_tier_g, child_tier_g, parent_tier_g, route_tier_g.
    repeat apply gfold_NoDup. constructor.
  - intros k Hk. apply in_map_iff in Hk. destruct Hk as [[k' v] [E Hin]]. simpl in E; subst k'.
    exact (proj1 (primary_links_ok data h Hh k v Hin)).
  - intros k Hk Hne. destruct (hierarchy_keys_nodup data h Hh) as [NDn _].
    apply in_map_iff in Hk. destruct Hk as [[k' nd] [E Hin]]. simpl in E; subst k'.
    unfold primary_links. rewrite fallback_tier_g.
    rewrite (gfold_get _ _ _ _ k nd NDn Hin).
    unfold g_fallback.
    destruct (dict_get String.eqb k _) as [v|]; [eauto|].
    destruct (String.eqb_spec k (node_id (h_coordinator h))); [contradiction|eauto].
Qed.

Lemma primary_links_keys_witness :
  let h := ex_hier in
  NoDup (map fst (primary_links h)) /\
  (forall k, In k (map fst (primary_links h)) -> In k (map fst (h_nodes h))) /\
  (forall k, In k (map fst (h_nodes h)) -> k <> node_id (h_coordinator h) ->
     exists v, dict_get String.eqb k (primary_links h) = Some v).
Proof.
  apply (primary_links_keys (export_of [ex_dev_C; ex_dev_R; ex_dev_E]) ex_hier).
  vm_compute. reflexivity.
Defined.

(** X7: the target of every primary link is a hierarchy node, and an
    end device's link chosen from its own neighbor table targets a Router
    or the Coordinator. *)
Theorem primary_link_targets_known (data : export) (h : hierarchy)
  (Hh : build_hierarchy data = Some h) :
  forall k v, In (k, v) (primary_links h) ->
    In (pl_target v) (map fst (h_nodes h)) /\
    (node_type_is (h_nodes h) k (fun t => dtype_eqb t EndDevice) = true ->
     pl_source_type v = SNeighbor ->
     node_type_is (h_nodes h) (pl_target v) is_router_or_coord = true).
Proof.
  intros k v Hin. exact (proj2 (primary_links_ok data h Hh k v Hin)).
Qed.

Lemma primary_link_targets_known_witness :
  let h := ex_hier in
  let v := mkPlink "R" (Some 150) SParent in
  In (pl_target v) (map fst (h_nodes h)) /\
  (node_type_is (h_nodes h) "E"%string (fun t => dtype_eqb t EndDevice) = true ->
   pl_source_type v = SNeighbor ->
   node_type_is (h_nodes h) (pl_target v) is_router_or_coord = true).
Proof.
  apply (primary_link_targets_known (export_of [ex_dev_C; ex_dev_R; ex_dev_E]) ex_hier
           ltac:(vm_compute; reflexivity) "E"%string).
  vm_compute. right. left. reflexivity.
Defined.

(** X8: each hop of a device's path to the coordinator is the target of
    the primary link of the hop before it, with that link's lqi and the
    target's type; the walk stops at an empty id, at the coordinator, at a
    node with no primary link, or at a node already on the path. *)
Theorem path_follows_links nodes links cid node_id p
  (Hp : path_to_coordinator nodes links cid node_id = Some p) :
  follows nodes links node_id p /\
  walk_stop links cid (removelast (node_id :: map hop_id p)) (last (map hop_id p) node_id).
Proof.
  unfold path_to_coordinator in Hp.
  destruct (String.eqb_spec node_id cid) as [Hc|Hc].
  - inversion Hp; subst p. split; [exact I|]. right; left. exact Hc.
  - exact (walk_follows nodes links cid _ [] node_id p Hp).
Qed.

Lemma path_follows_links_witness :
  follows (h_nodes ex_hier) (primary_links ex_hier) "E"%string
    [mkHop "R" (Some 150%Z) (Some Router); mkHop "C" (Some 200%Z) (Some Coordinator)] /\
  walk_stop (primary_links ex_hier) "C"%string
    (removelast ("E"%string :: map hop_id
      [mkHop "R" (Some 150%Z) (Some Router); mkHop "C" (Some 200%Z) (Some Coordinator)]))
    (last (map hop_id
      [mkHop "R" (Some 150%Z) (Some Router); mkHop "C" (Some 200%Z) (Some Coordinator)]) "E"%string).
Proof. apply (path_follows_links _ _ "C"%string "E"%string). vm_compute. reflexivity. Defined.

(** X9: building the d3 nodes fails (the [ValueError] of [int()] escapes)
    exactly when a neighbor entry of a node's device has a non-empty
    textual lqi that [int()] rejects. *)
Theorem d3_nodes_fail (devices : list (string * device)) (nodes : list (string * node)) :
  d3_nodes devices nodes = None <->
  exists k nd n s, In (k, nd) nodes /\ In n (device_neighbors devices k) /\
    n_lqi n = JStr s /\ s <> EmptyString /\ py_int 10 s = None.
Proof.
  assert (Hnl : forall ns, neighbor_list ns = None <->
    exists n s, In n ns /\ n_lqi n = JStr s /\ s <> EmptyString /\ py_int 10 s = None).
  { induction ns as [|n r IH]; simpl.
    - split; [discriminate|intros [n [s [[] _]]]].
    - destruct (nl_lqi (n_lqi n)) as [z|] eqn:E.
      + destruct (neighbor_list r) as [l|]; simpl.
        * split; [discriminate|]. intros [n' [s [[<-|Hin] Hs]]].
          -- destruct Hs as [Hs1 Hs]. assert (nl_lqi (n_lqi n) = None) by
               (apply nl_lqi_none; exists s; exact (conj Hs1 Hs)). congruence.
          -- assert (Some l = None) by (apply IH; exists n', s; auto). discriminate.
        * split; [intros _|reflexivity]. destruct (proj1 IH eq_refl) as [n' [s H]].
          exists n', s. tauto.
      + split; [intros _|reflexivity]. apply nl_lqi_none in E. destruct E as [s Hs].
        exists n, s. tauto. }
  induction nodes as [|[k nd] r IH]; simpl.
  - split; [discriminate|intros [k [nd [n [s [[] _]]]]]].
  - destruct (neighbor_list (device_neighbors devices k)) as [nl|] eqn:E.
    + destruct (d3_nodes devices r) as [ds|]; simpl.
      * split; [discriminate|]. intros [k' [nd' [n [s [[Hk|Hk] Hs]]]]].
        -- inversion Hk; subst k' nd'.
           assert (neighbor_list (device_neighbors devices k) = None) by
             (apply Hnl; exists n, s; tauto). congruence.
        -- assert (Some ds = None) by (apply IH; exists k', nd', n, s; tauto). discriminate.
      * split; [intros _|reflexivity]. destruct (proj1 IH eq_refl) as [k' [nd' [n [s H]]]].
        exists k', nd', n, s. tauto.
    + split; [intros _|reflexivity]. destruct (proj1 (Hnl _) E) as [n [s H]].
      exists k, nd, n, s. tauto.
Qed.

(** X10: when the d3 nodes are built, there is one per hierarchy node, in
    order, with the node's id and type, and its neighbor list gives each
    neighbor entry of the device, in order, with the lqi read as a
    number, 0 when missing or falsy. *)
Theorem d3_nodes_lqi (devices : list (string * device)) (nodes : list (string * node))
  (ds : list d3node) (Hd : d3_nodes devices nodes = Some ds) :
  Forall2 (fun kn dn => dn_id dn = fst kn /\ dn_type dn = node_type (snd kn) /\
    dn_neighbors dn = map (fun n => mkNentry (n_ieee n) (link_lqi (n_lqi n)) (n_rel n))
                          (device_neighbors devices (fst kn))) nodes ds.
Proof.
  assert (Hnl : forall ns l, neighbor_list ns = Some l ->
    l = map (fun n => mkNentry (n_ieee n) (link_lqi (n_lqi n)) (n_rel n)) ns).
  { induction ns as [|n r IH]; simpl; intros l H; [inversion H; reflexivity|].
    destruct (nl_lqi (n_lqi n)) as [z|] eqn:E; [|discriminate].
    destruct (neighbor_list r) as [l'|]; simpl in H; [|discriminate].
    inversion H; subst. rewrite (nl_lqi_some _ _ E), (IH l' eq_refl). reflexivity. }
  revert ds Hd. induction nodes as [|[k nd] r IH]; simpl; intros ds Hd.
  - inversion Hd. constructor.
  - destruct (neighbor_list (device_neighbors devices k)) as [nl|] eqn:E; [|discriminate].
    destruct (d3_nodes devices r) as [ds'|]; simpl in Hd; [|discriminate].
    inversion Hd; subst. constructor; [|exact (IH ds' eq_refl)].
    simpl. split; [reflexivity|]. split; [reflexivity|]. exact (Hnl _ _ E).
Qed.

Lemma d3_nodes_lqi_witness :
  let h := hier_of sibling_devs in
  Forall2 (fun kn dn => dn_id dn = fst kn /\ dn_type dn = node_type (snd kn) /\
    dn_neighbors dn = map (fun n => mkNentry (n_ieee n) (link_lqi (n_lqi n)) (n_rel n))
                          (device_neighbors (h_devices h) (fst kn))) (h_nodes h) sibling_d3.
Proof.
  apply (d3_nodes_lqi (h_devices (hier_of sibling_devs)) (h_nodes (hier_of sibling_devs))).
  vm_compute. reflexivity.
Defined.

(** X11: no two sibling links join the same unordered pair of nodes, and
    no sibling link joins a pair already joined by a primary link. *)
Theorem sibling_links_distinct (d3 : list d3node) (links : links_map) :
  let S := sibling_links d3 links in
  (forall i j s1 s2, nth_error S i = Some s1 -> nth_error S j = Some s2 ->
     same_pair (sl_source s1) (sl_target s1) (sl_source s2) (sl_target s2) -> i = j) /\
  (forall s k l, In s S -> In (k, l) links ->
     ~ same_pair (pl_target l) k (sl_source s) (sl_target s)).
Proof.
  destruct (sibling_links_inv d3 links) as [Hn Hf]. cbv zeta. split.
  - intros i j s1 s2 H1 H2 Hs. apply link_key_same in Hs.
    apply (proj1 (NoDup_nth_error _) Hn);
      [rewrite length_map; apply nth_error_Some; rewrite H1; discriminate|].
    rewrite !nth_error_map, H1, H2. simpl. unfold skey. rewrite Hs. reflexivity.
  - intros s k l Hs Hl. rewrite Forall_forall in Hf. exact (proj1 (Hf s Hs) k l Hl).
Qed.

(** X12: a sibling link starts at a Router or Coordinator node whose
    neighbor list reports the target as [Sibling] with the link's lqi,
    and ends at a Router or Coordinator node. *)
Theorem sibling_links_endpoints (d3 : list d3node) (links : links_map) :
  forall s, In s (sibling_links d3 links) ->
  (exists dn, In dn d3 /\ dn_id dn = sl_source s /\ is_router_or_coord (dn_type dn) = true /\
     In (mkNentry (sl_target s) (sl_lqi s) Sibling) (dn_neighbors dn)) /\
  (exists dn, In dn d3 /\ dn_id dn = sl_target s /\ is_router_or_coord (dn_type dn) = true).
Proof.
  intros s Hs. destruct (sibling_links_inv d3 links) as [_ Hf].
  rewrite Forall_forall in Hf. exact (proj2 (Hf s Hs)).
Qed.

Lemma sibling_links_endpoints_witness :
  let s := mkSlink "R1" "R2" 120 in
  (exists dn, In dn sibling_d3 /\ dn_id dn = sl_source s /\ is_router_or_coord (dn_type dn) = true /\
     In (mkNentry (sl_target s) (sl_lqi s) Sibling) (dn_neighbors dn)) /\
  (exists dn, In dn sibling_d3 /\ dn_id dn = sl_target s /\ is_router_or_coord (dn_type dn) = true).
Proof.
  apply (sibling_links_endpoints sibling_d3 (primary_links (hier_of sibling_devs))).
  vm_compute. left. reflexivity.
Defined.

(** X13: the weak devices listed by [print_topology_summary] are exactly
    the nodes whose lqi [build_topology] read as a number below 50, sorted
    by increasing lqi. *)
Theorem weak_devices_spec (ns : list (string * jvalue)) :
  let W := weak_devices (map (fun n => (fst n, device_lqi (snd n))) ns) in
  StronglySorted (fun a b => snd a <= snd b) W /\
  (forall name l, In (name, l) W <->
     exists raw, In (name, raw) ns /\ device_lqi raw = Some l /\ l < 50).
Proof.
  cbv zeta. unfold weak_devices. split.
  - eapply StronglySorted_weaken; [|apply stable_sort_sorted].
    intros a b [H|[H _]]; simpl in H; lia.
  - intros name l. rewrite (Perm_in_iff _ _ _ (stable_sort_perm _ _)), in_flat_map.
    split.
    + intros [[nm lo] [Hin Hx]]. apply in_map_iff in Hin. destruct Hin as [[nm' raw] [E Hin]].
      inversion E; subst. simpl in Hx.
      destruct (device_lqi raw) as [l'|] eqn:Ed; [|destruct Hx].
      destruct (l' <? 50) eqn:El; [|destruct Hx]. destruct Hx as [Hx|[]]. inversion Hx; subst.
      exists raw. split; [exact Hin|]. split; [exact Ed|]. apply Z.ltb_lt. exact El.
    + intros [raw [Hin [Ed Hl]]]. exists (name, device_lqi raw). split.
      * apply (in_map (fun n => (fst n, device_lqi (snd n))) _ (name, raw)). exact Hin.
      * simpl. rewrite Ed. apply Z.ltb_lt in Hl. rewrite Hl. left. reflexivity.
Qed.

(** X14: [nwk_to_int] reads a non-empty string of hexadecimal digits
    after ["0x"] in base 16, and a non-empty string of decimal digits in
    base 10. *)
Theorem nwk_to_int_digit_strings (cs : list ascii) (Hne : cs <> []) :
  (Forall (is_digit 16) cs ->
   nwk_to_int (JStr (String "0" (String "x" (string_of_list_ascii cs)))) = Some (digits_value 16 cs)) /\
  (Forall (is_digit 10) cs ->
   nwk_to_int (JStr (string_of_list_ascii cs)) = Some (digits_value 10 cs)).
Proof.
  destruct cs as [|c r]; [contradiction|]. split; intros Hf.
  - destruct (last_digit _ _ _ Hf) as [dl [Hl _]].
    inversion Hf as [|? ? [d [Hd _]] _]; subst.
    unfold nwk_to_int. simpl String.prefix. cbv iota.
    unfold py_int. simpl list_ascii_of_string. rewrite list_ascii_of_string_of_list_ascii.
    rewrite (py_strip_id "0"%char ("x"%char :: c :: r)); [|reflexivity|].
    2:{ change (last ("0"%char :: "x"%char :: c :: r) "0"%char) with (last (c :: r) "0"%char).
        rewrite (last_indep c r "0"%char c). exact (digit_not_space _ _ Hl). }
    remember (c :: r) as cr eqn:Ecr. simpl.
    assert (Em : match c with "_"%char => r | _ => cr end = cr)
      by (clear - Hd; revert Hd; destruct c as [[] [] [] [] [] [] [] []]; vm_compute;
          first [reflexivity | discriminate]).
    rewrite Em. subst cr. rewrite py_digits_ok; [|discriminate|exact Hf].
    cbn [option_map]. rewrite Z.mul_1_l. reflexivity.
  - destruct (last_digit _ _ _ Hf) as [dl [Hl _]].
    inversion Hf as [|? ? [d [Hd Hd10]] Hr]; subst.
    unfold nwk_to_int.
    assert (Hp : String.prefix "0x" (string_of_list_ascii (c :: r)) = false).
    { cbn [String.prefix string_of_list_ascii]. destruct (ascii_dec "0"%char c); [|reflexivity].
      destruct r as [|c' r']; [reflexivity|]. cbn [String.prefix string_of_list_ascii].
      destruct (ascii_dec "x"%char c') as [<-|]; [|reflexivity].
      inversion Hr as [|? ? [d' [Hd' Hb']] _]; subst. vm_compute in Hd'.
      inversion Hd'; subst. lia. }
    rewrite Hp. unfold py_int. cbv zeta. rewrite list_ascii_of_string_of_list_ascii.
    rewrite (py_strip_id c r); [|exact (digit_not_space _ _ Hd)|exact (digit_not_space _ _ Hl)].
    assert (Es : match c with "+"%char => (1, r) | "-"%char => (-1, r) | _ => (1, c :: r) end
                 = (1, c :: r))
      by (clear - Hd; revert Hd; destruct c as [[] [] [] [] [] [] [] []]; vm_compute;
          first [reflexivity | discriminate]).
    rewrite Es.
    simpl Z.eqb. cbv iota zeta. rewrite py_digits_ok; [|discriminate|exact Hf].
    cbn [option_map]. rewrite Z.mul_1_l. reflexivity.
Qed.

Lemma nwk_to_int_digit_strings_witness :
  let cs := list_ascii_of_string "1A2B" in
  (Forall (is_digit 16) cs ->
   nwk_to_int (JStr (String "0" (String "x" (string_of_list_ascii cs)))) = Some (digits_value 16 cs)) /\
  (Forall (is_digit 10) cs ->
   nwk_to_int (JStr (string_of_list_ascii cs)) = Some (digits_value 10 cs)).
Proof. apply (nwk_to_int_digit_strings (list_ascii_of_string "1A2B")). vm_compute. discriminate. Defined.
